(** * genMidiFromGpt: a one-track Standard MIDI File writer

    A shallow embedding of [src/midi-generation/genMidiFromGpt.py] and the
    verification of its natural-language specification against it.

    Python integers are unbounded, so they are [Z]; the bit operators
    [&], [|], [<<] and [>>] on them are [Z.land], [Z.lor], [Z.shiftl] and
    [Z.shiftr] (two's complement, [>>] rounding towards minus infinity).
    Python floats are IEEE 754 binary64 numbers: they are [spec_float]
    with a precision of 53 bits and a maximal exponent of 1024, and the
    float operators are the corresponding [SF] operations.  A [bytes]
    object is a [list Z] whose elements lie in [0, 256). *)

From Stdlib Require Import ZArith List Bool Lia.
From Stdlib Require String.
From Stdlib Require Import Floats.SpecFloat.
Import ListNotations.

#[local] Open Scope Z_scope.
Import String.StringSyntax.
#[local] Delimit Scope string_scope with string.

(** ** Outcomes of a Python computation *)

(** The exceptions the script can raise. *)
Inductive exn : Type :=
| ZeroDivisionError   (* float division by zero *)
| ValueError          (* [int(nan)], [bytes] of a value outside range(256) *)
| OverflowError       (* [int(inf)] *)
| StructError.        (* [struct.error]: [pack] argument out of range *)

(** A computation returns a value, raises, or is still running when its
    fuel is spent.  The [while] loops of the program are not structurally
    recursive; they are run with a fuel that bounds the iterations of each
    loop, and a program diverges when no fuel lets it finish. *)
Inductive outcome (A : Type) : Type :=
| Returned (a : A)
| Raised (e : exn)
| OutOfFuel.

Arguments Returned {A} a.
Arguments Raised {A} e.
Arguments OutOfFuel {A}.

Definition bind {A B : Type} (m : outcome A) (k : A -> outcome B) : outcome B :=
  match m with
  | Returned a => k a
  | Raised e => Raised e
  | OutOfFuel => OutOfFuel
  end.

Notation "x <- m ;; k" := (bind m (fun x => k))
  (at level 61, m at next level, right associativity).

Definition is_returned {A : Type} (m : outcome A) : bool :=
  match m with Returned _ => true | _ => false end.

Definition terminates {A : Type} (m : outcome A) : bool :=
  match m with OutOfFuel => false | _ => true end.

(** ** Bytes *)

Definition bytes := list Z.

Definition is_byte (b : Z) : bool := (0 <=? b) && (b <? 256).

(** [bytes(xs)] for a list of integers: [ValueError] unless every element
    is in range(256). *)
Definition bytes_of_ints (xs : list Z) : outcome bytes :=
  if forallb is_byte xs then Returned xs else Raised ValueError.

(** Big-endian digits in base 256, [n] of them, of a non-negative value. *)
Fixpoint be_bytes (n : nat) (v : Z) : bytes :=
  match n with
  | O => []
  | S n' => be_bytes n' (Z.shiftr v 8) ++ [Z.land v 255]
  end.

(** The value of a big-endian byte string. *)
Definition be_value (bs : bytes) : Z :=
  fold_left (fun acc b => acc * 256 + b) bs 0.

(** [pack('>L', v)]: four bytes, big-endian; [struct.error] unless
    [0 <= v <= 0xFFFFFFFF]. *)
Definition pack_L (v : Z) : outcome bytes :=
  if (0 <=? v) && (v <=? 4294967295) then Returned (be_bytes 4 v)
  else Raised StructError.

(** [pack('>H', v)] for the constants of the header. *)
Definition pack_H (v : Z) : outcome bytes :=
  if (0 <=? v) && (v <=? 65535) then Returned (be_bytes 2 v)
  else Raised StructError.

(** ** write_varlen *)

(** First loop:
<<
    while value >> 7:
        value >>= 7
        buffer <<= 8
        buffer |= ((value & 0x7F) | 0x80)
>>
    Only [buffer] is read afterwards. *)
Fixpoint write_varlen_pack (fuel : nat) (value buffer : Z) : outcome Z :=
  match fuel with
  | O => OutOfFuel
  | S fuel' =>
      if Z.shiftr value 7 =? 0 then Returned buffer
      else
        let value := Z.shiftr value 7 in
        let buffer := Z.shiftl buffer 8 in
        let buffer := Z.lor buffer (Z.lor (Z.land value 127) 128) in
        write_varlen_pack fuel' value buffer
  end.

(** Second loop:
<<
    while True:
        out.append(buffer & 0xFF)
        if buffer & 0x80:
            buffer >>= 8
        else:
            break
>> *)
Fixpoint write_varlen_emit (fuel : nat) (buffer : Z) (out : list Z)
  : outcome (list Z) :=
  match fuel with
  | O => OutOfFuel
  | S fuel' =>
      let out := out ++ [Z.land buffer 255] in
      if Z.land buffer 128 =? 0 then Returned out
      else write_varlen_emit fuel' (Z.shiftr buffer 8) out
  end.

(** [write_varlen(value)]; [out[::-1]] is [rev out]. *)
Definition write_varlen (fuel : nat) (value : Z) : outcome bytes :=
  let buffer := Z.land value 127 in
  buffer <- write_varlen_pack fuel value buffer ;;
  out <- write_varlen_emit fuel buffer [] ;;
  bytes_of_ints (rev out).

(** ** Floats *)

Definition float := spec_float.

Definition prec : Z := 53.
Definition emax : Z := 1024.

(** The float nearest to [m * 2^e]; [float_of_int n] is the conversion
    Python applies to an [int] operand of a float operator. *)
Definition float_lit (m e : Z) : float := binary_normalize prec emax m e false.
Definition float_of_int (n : Z) : float := float_lit n 0.

Definition fsub (x y : float) : float := SFsub prec emax x y.
Definition fadd (x y : float) : float := SFadd prec emax x y.
Definition fmul (x y : float) : float := SFmul prec emax x y.

(** [int(x)] for a float: truncation towards zero; [ValueError] on a NaN,
    [OverflowError] on an infinity.  A finite float is [+/- m * 2^e];
    [Z.shiftl] by a negative amount shifts right. *)
Definition int_of_float (x : float) : outcome Z :=
  match x with
  | S754_zero _ => Returned 0
  | S754_infinity _ => Raised OverflowError
  | S754_nan => Raised ValueError
  | S754_finite s m e => Returned (cond_Zopp s (Z.shiftl (Z.pos m) e))
  end.

(** [a / b] for two [int]s: [ZeroDivisionError] when [b] is zero, else the
    float quotient of the operands.  CPython divides the operands as floats
    when both are below [2^53] in magnitude; beyond, it rounds the exact
    quotient once where this model rounds the divisor first.  The only
    dividend of the program is 60000000: the two quotients then lie below
    [2^-26] and [int] takes both to zero. *)
Definition int_true_div (a b : Z) : outcome float :=
  if b =? 0 then Raised ZeroDivisionError
  else Returned (SFdiv prec emax (float_of_int a) (float_of_int b)).

(** ** create_midi *)

(** A note of the input list: [(start, pitch, dur, vel)]. *)
Definition note : Type := float * Z * float * Z.

Definition PPQ : Z := 480.

(** The body of [for start, pitch, dur, vel in notes], threading
    [track_data] and [last_time]. *)
Fixpoint create_midi_notes (fuel : nat) (notes : list note)
    (last_time : float) (track_data : bytes) : outcome bytes :=
  match notes with
  | [] => Returned track_data
  | (start, pitch, dur, vel) :: notes' =>
      delta_start <- int_of_float (fmul (fsub start last_time) (float_of_int PPQ)) ;;
      delta_dur <- int_of_float (fmul dur (float_of_int PPQ)) ;;
      (* Note on *)
      vl_on <- write_varlen fuel delta_start ;;
      pv <- bytes_of_ints [pitch; vel] ;;
      let track_data := track_data ++ (vl_on ++ [144] ++ pv) in
      (* Note off *)
      vl_off <- write_varlen fuel delta_dur ;;
      p0 <- bytes_of_ints [pitch; 0] ;;
      let track_data := track_data ++ (vl_off ++ [128] ++ p0) in
      let last_time := fadd start dur in
      create_midi_notes fuel notes' last_time track_data
  end.

Definition MThd : bytes := [77; 84; 104; 100].
Definition MTrk : bytes := [77; 84; 114; 107].

(** [pack('>LHHH', 6, 1, 1, 480)] *)
Definition pack_LHHH (a b c d : Z) : outcome bytes :=
  ba <- pack_L a ;; bb <- pack_H b ;; bc <- pack_H c ;; bd <- pack_H d ;;
  Returned (ba ++ bb ++ bc ++ bd).

(** [int(60000000 / tempo)], the first statement of [create_midi]. *)
Definition microseconds_per_beat (tempo : Z) : outcome Z :=
  q <- int_true_div 60000000 tempo ;;
  int_of_float q.

(** [create_midi(filename, notes, tempo)].  The result is the byte string
    handed to [f.write], that is the content of the file [filename]; the
    message printed afterwards carries no data of the encoding. *)
Definition create_midi (fuel : nat) (filename : String.string) (notes : list note)
    (tempo : Z) : outcome bytes :=
  microseconds_per_beat <- microseconds_per_beat tempo ;;
  let track_data : bytes := [] in
  (* Set tempo meta event *)
  packed <- pack_L microseconds_per_beat ;;
  let track_data := track_data ++ ([0; 255; 81; 3] ++ skipn 1 packed) in
  let last_time := float_of_int 0 in
  track_data <- create_midi_notes fuel notes last_time track_data ;;
  (* End of track *)
  let track_data := track_data ++ [0; 255; 47; 0] in
  (* Build file *)
  hd <- pack_LHHH 6 1 1 PPQ ;;
  let header := MThd ++ hd in
  len <- pack_L (Z.of_nat (length track_data)) ;;
  let track := MTrk ++ len ++ track_data in
  Returned (header ++ track).

(** ** The standard variable-length quantity *)

(** A continuation byte carries seven bits of the value under a set high
    bit. *)
Definition vlq_cont_byte (g : Z) : Z := Z.lor (Z.land g 127) 128.

(** The [n] continuation bytes that carry bits [7n+6 .. 7] of [v], most
    significant group first. *)
Fixpoint vlq_cont (n : nat) (v : Z) : bytes :=
  match n with
  | O => []
  | S n' => vlq_cont_byte (Z.shiftr v (7 * Z.of_nat n)) :: vlq_cont n' v
  end.

(** The number of continuation bytes of a non-negative value. *)
Definition vlq_size (v : Z) : nat := Z.to_nat (Z.log2 v / 7).

(** The specification's encoding: the 7-bit groups of [v], most
    significant first, the high bit set on all but the last. *)
Definition vlq_encode (v : Z) : bytes :=
  vlq_cont (vlq_size v) v ++ [Z.land v 127].

(** The standard decoder: accumulate seven bits per byte up to and
    including the first byte whose high bit is clear; the bytes after it
    are returned with the value.  [None] when the input ends in the middle
    of a quantity. *)
Fixpoint vlq_decode_from (acc : Z) (bs : bytes) : option (Z * bytes) :=
  match bs with
  | [] => None
  | b :: bs' =>
      let acc := acc * 128 + Z.land b 127 in
      if Z.land b 128 =? 0 then Some (acc, bs') else vlq_decode_from acc bs'
  end.

Definition vlq_decode (bs : bytes) : option (Z * bytes) := vlq_decode_from 0 bs.

(** The value of a little-endian digit string in base 256: [buffer] holds
    the bytes still to be emitted in this form. *)
Definition le_value (ds : list Z) : Z :=
  fold_right (fun d acc => d + 256 * acc) 0 ds.

(** ** Notions used in the statements *)

(** The header chunk: ["MThd"], length 6, format 1, one track, 480 ticks
    per quarter note. *)
Definition header_chunk : bytes :=
  MThd ++ [0; 0; 0; 6] ++ [0; 1] ++ [0; 1] ++ [1; 224].

(** The Set-Tempo meta-event for a microsecond value. *)
Definition set_tempo (us : Z) : bytes := [0; 255; 81; 3] ++ be_bytes 3 us.

Definition end_of_track : bytes := [0; 255; 47; 0].

(** The second half of [binary_round_aux]: renormalize after rounding. *)
Definition round_finish (s : bool) (m : Z) (e : Z) : float :=
  let '(mrs, e') := shr_fexp prec emax m e loc_Exact in
  match shr_m mrs with
  | Z0 => S754_zero s
  | Zpos m' => if e' <=? emax - prec then S754_finite s m' e' else S754_infinity s
  | Zneg _ => S754_nan
  end.

Definition out_mid : String.string := "out.mid"%string.

Definition f_lit_0_0 : float := float_lit 0 0.      (* 0.0 *)
Definition f_lit_0_75 : float := float_lit 3 (-2).  (* 0.75 *)
Definition f_lit_1_0 : float := float_lit 1 0.      (* 1.0 *)

(** The ticks of a note: where it starts after the cursor, and how long it
    lasts. *)
Definition start_ticks (last_time : float) (n : note) : outcome Z :=
  let '(start, _, _, _) := n in
  int_of_float (fmul (fsub start last_time) (float_of_int PPQ)).

Definition dur_ticks (n : note) : outcome Z :=
  let '(_, _, dur, _) := n in int_of_float (fmul dur (float_of_int PPQ)).

(** The cursor after a note. *)
Definition note_end (n : note) : float :=
  let '(start, _, dur, _) := n in fadd start dur.

(** The bytes one iteration of the loop appends. *)
Definition note_events (fuel : nat) (last_time : float) (n : note)
  : outcome bytes :=
  let '(_, pitch, _, vel) := n in
  delta_start <- start_ticks last_time n ;;
  delta_dur <- dur_ticks n ;;
  vl_on <- write_varlen fuel delta_start ;;
  pv <- bytes_of_ints [pitch; vel] ;;
  vl_off <- write_varlen fuel delta_dur ;;
  p0 <- bytes_of_ints [pitch; 0] ;;
  Returned ((vl_on ++ [144] ++ pv) ++ (vl_off ++ [128] ++ p0)).

(** [encoded_notes fuel last_time notes evs]: the loop started with the
    cursor [last_time] runs through [notes] and appends the byte strings
    [evs], one per note. *)
Inductive encoded_notes (fuel : nat) : float -> list note -> list bytes -> Prop :=
| encoded_nil (last_time : float) : encoded_notes fuel last_time [] []
| encoded_cons (last_time : float) (n : note) (notes : list note)
    (ev : bytes) (evs : list bytes) :
    note_events fuel last_time n = Returned ev ->
    encoded_notes fuel (note_end n) notes evs ->
    encoded_notes fuel last_time (n :: notes) (ev :: evs).

(** The start ticks of the notes, each against the cursor the loop has
    when it reaches the note. *)
Fixpoint start_tick_list (last_time : float) (notes : list note)
  : list (outcome Z) :=
  match notes with
  | [] => []
  | n :: notes' => start_ticks last_time n :: start_tick_list (note_end n) notes'
  end.

Definition negative_ticks (t : outcome Z) : Prop :=
  exists d, t = Returned d /\ d < 0.

Definition non_byte_fields (n : note) : Prop :=
  let '(_, pitch, _, vel) := n in ~ (0 <= pitch < 256 /\ 0 <= vel < 256).

Definition f_lit_0_5 : float := float_lit 1 (-1).   (* 0.5 *)

(** Two notes out of order: the second starts before the first has ended,
    and its start delta is negative. *)
Definition unordered_notes : list note :=
  [(f_lit_1_0, 60, f_lit_1_0, 100); (f_lit_0_0, 62, f_lit_1_0, 100)].

Definition overlapping_notes : list note :=
  [(f_lit_0_0, 60, f_lit_1_0, 100); (f_lit_0_5, 62, f_lit_1_0, 100)].

Definition nonneg_ticks (t : outcome Z) : Prop :=
  forall d, t = Returned d -> 0 <= d.

Definition valid_ticks (t : outcome Z) : Prop :=
  exists d, t = Returned d /\ 0 <= d.

(** The fuel [write_varlen] needs for a tick count: one iteration more
    than the value has continuation groups. *)
Definition ticks_fuel (t : outcome Z) : nat :=
  match t with Returned d => S (vlq_size d) | _ => O end.

Fixpoint fuel_needed (last_time : float) (notes : list note) : nat :=
  match notes with
  | [] => O
  | n :: notes' =>
      Nat.max (Nat.max (ticks_fuel (start_ticks last_time n))
                       (ticks_fuel (dur_ticks n)))
              (fuel_needed (note_end n) notes')
  end.

Definition note_pitch (n : note) : Z := let '(_, pitch, _, _) := n in pitch.
Definition note_vel (n : note) : Z := let '(_, _, _, vel) := n in vel.

(** The specification's tick count, [round(x)]: the nearest integer, a tie
    going to the even one. *)
Definition spec_round (x : float) : outcome Z :=
  match x with
  | S754_zero _ => Returned 0
  | S754_infinity _ => Raised OverflowError
  | S754_nan => Raised ValueError
  | S754_finite s m e =>
      if 0 <=? e then Returned (cond_Zopp s (Z.shiftl (Z.pos m) e))
      else
        let q := Z.pos m / 2 ^ (- e) in
        let r := Z.pos m mod 2 ^ (- e) in
        Returned (cond_Zopp s
          match 2 * r ?= 2 ^ (- e) with
          | Lt => q
          | Eq => if Z.even q then q else q + 1
          | Gt => q + 1
          end)
  end.

(** What the loop appends for one note: a Note-On and a Note-Off of the
    same pitch, each behind its delta time. *)
Definition note_pair (fuel : nat) (n : note) (chunk : bytes) : Prop :=
  exists delta_start delta_dur vl_on vl_off,
    dur_ticks n = Returned delta_dur /\
    0 <= delta_dur /\
    write_varlen fuel delta_start = Returned vl_on /\
    write_varlen fuel delta_dur = Returned vl_off /\
    (delta_dur < 128 -> vl_off = [delta_dur]) /\
    chunk = vl_on ++ [144; note_pitch n; note_vel n]
            ++ vl_off ++ [128; note_pitch n; 0].

(** The cursor [last_time] after the loop has run through some notes. *)
Fixpoint cursor_after (last_time : float) (notes : list note) : float :=
  match notes with
  | [] => last_time
  | n :: notes' => cursor_after (note_end n) notes'
  end.

(** A float that is a number: neither a NaN nor an infinity. *)
Definition is_finite (x : float) : bool :=
  match x with
  | S754_zero _ | S754_finite _ _ _ => true
  | S754_infinity _ | S754_nan => false
  end.

(** The number of bytes [write_varlen] returns for a tick count, and the
    number of bytes the loop appends for some notes: per note two delta
    times, two status bytes and four data bytes. *)
Definition ticks_bytes (t : outcome Z) : nat :=
  match t with Returned d => S (vlq_size d) | _ => O end.

Fixpoint events_size (last_time : float) (notes : list note) : nat :=
  match notes with
  | [] => O
  | n :: notes' =>
      (ticks_bytes (start_ticks last_time n) + 3
       + ticks_bytes (dur_ticks n) + 3
       + events_size (note_end n) notes')%nat
  end.

(** ** The script *)

(** The statements at module level: the note list (F minor bass line) and
    the call [create_midi("jumpup_complex_808_bass_155bpm.mid", notes,
    tempo=155)].  The float literals are multiples of a quarter and are
    binary64 numbers as they stand. *)
Module Script.

Definition beats (quarters : Z) : float := float_lit quarters (-2).

Definition notes : list note :=
  [ (beats 0, 41, beats 3, 100)    (* (0.0, 41, 0.75, 100)   F1  *)
  ; (beats 3, 46, beats 1, 95)     (* (0.75, 46, 0.25, 95)   Bb1 *)
  ; (beats 4, 43, beats 2, 100)    (* (1.0, 43, 0.5, 100)    G1  *)
  ; (beats 6, 41, beats 1, 100)    (* (1.5, 41, 0.25, 100)   F1  *)
  ; (beats 7, 48, beats 1, 100)    (* (1.75, 48, 0.25, 100)  C2  *)
  ; (beats 8, 45, beats 2, 100)    (* (2.0, 45, 0.5, 100)    A1  *)
  ; (beats 10, 41, beats 2, 100)   (* (2.5, 41, 0.5, 100)    F1  *)
  ; (beats 12, 43, beats 2, 100)   (* (3.0, 43, 0.5, 100)    G1  *)
  ; (beats 14, 46, beats 1, 100)   (* (3.5, 46, 0.25, 100)   Bb1 *)
  ; (beats 15, 41, beats 1, 100)   (* (3.75, 41, 0.25, 100)  F1  *)
  ; (beats 16, 48, beats 2, 100)   (* (4.0, 48, 0.5, 100)    C2  *)
  ; (beats 18, 45, beats 1, 100)   (* (4.5, 45, 0.25, 100)   A1  *)
  ; (beats 19, 43, beats 1, 100)   (* (4.75, 43, 0.25, 100)  G1  *)
  ; (beats 20, 41, beats 4, 100)   (* (5.0, 41, 1.0, 100)    F1  *)
  ; (beats 24, 46, beats 2, 100)   (* (6.0, 46, 0.5, 100)    Bb1 *)
  ; (beats 26, 48, beats 2, 100)   (* (6.5, 48, 0.5, 100)    C2  *)
  ; (beats 28, 41, beats 4, 100)   (* (7.0, 41, 1.0, 100)    F1  *)
  ].

Definition filename : String.string :=
  "jumpup_complex_808_bass_155bpm.mid"%string.

Definition main (fuel : nat) : outcome bytes :=
  create_midi fuel filename notes 155.

End Script.

(** * Properties *)

(** ** Bit-level facts *)

Lemma land_127_range (v : Z) : 0 <= Z.land v 127 < 128.
Proof.
  change 127 with (Z.ones 7). rewrite Z.land_ones by lia.
  change (2 ^ 7) with 128. apply Z.mod_pos_bound. lia.
Qed.

Lemma land_255_range (v : Z) : 0 <= Z.land v 255 < 256.
Proof.
  change 255 with (Z.ones 8). rewrite Z.land_ones by lia.
  change (2 ^ 8) with 256. apply Z.mod_pos_bound. lia.
Qed.

Lemma land_255_byte (v : Z) : is_byte (Z.land v 255) = true.
Proof. pose proof (land_255_range v). unfold is_byte. lia. Qed.

Lemma is_byte_range (b : Z) : is_byte b = true <-> 0 <= b < 256.
Proof. unfold is_byte. lia. Qed.

Lemma land_127_low (v : Z) : Z.land (Z.land v 127) 128 = 0.
Proof. rewrite <- Z.land_assoc. change (Z.land 127 128) with 0. apply Z.land_0_r. Qed.

Lemma vlq_cont_byte_high (g : Z) : Z.land (vlq_cont_byte g) 128 <> 0.
Proof.
  unfold vlq_cont_byte. rewrite Z.land_lor_distr_l.
  change (Z.land 128 128) with 128. intro H.
  apply Z.lor_eq_0_iff in H. lia.
Qed.

Lemma vlq_cont_byte_range (g : Z) : 128 <= vlq_cont_byte g < 256.
Proof.
  unfold vlq_cont_byte. pose proof (land_127_range g) as Hr.
  rewrite <- Z.lxor_lor by apply land_127_low.
  rewrite <- Z.add_nocarry_lxor by apply land_127_low. lia.
Qed.

(** Pushing a byte below a non-negative buffer. *)
Lemma push_byte (buffer c : Z) :
  0 <= c < 256 -> Z.lor (Z.shiftl buffer 8) c = c + 256 * buffer.
Proof.
  intros Hc. rewrite Z.shiftl_mul_pow2 by lia. change (2 ^ 8) with 256.
  assert (Hd : Z.land (buffer * 256) c = 0).
  { apply Z.bits_inj'. intros n Hn. rewrite Z.land_spec, Z.bits_0.
    destruct (Z.ltb_spec n 8).
    - change 256 with (2 ^ 8). rewrite Z.mul_pow2_bits_low by lia. reflexivity.
    - replace (Z.testbit c n) with false; [apply andb_false_r|].
      symmetry. destruct (Z.eq_dec c 0) as [->|]; [apply Z.bits_0|].
      apply Z.bits_above_log2; [lia|].
      apply Z.log2_lt_pow2; [lia|].
      apply Z.lt_le_trans with (2 ^ 8); [change (2 ^ 8) with 256; lia|].
      apply Z.pow_le_mono_r; lia. }
  rewrite <- Z.lxor_lor by exact Hd.
  rewrite <- Z.add_nocarry_lxor by exact Hd. lia.
Qed.

(** Reading the low byte of a buffer. *)
Lemma low_byte (c rest : Z) :
  0 <= c < 256 ->
  Z.land (c + 256 * rest) 255 = c /\
  Z.land (c + 256 * rest) 128 = Z.land c 128 /\
  Z.shiftr (c + 256 * rest) 8 = rest.
Proof.
  intros Hc.
  assert (H1 : Z.land (c + 256 * rest) 255 = c).
  { change 255 with (Z.ones 8). rewrite Z.land_ones by lia.
    change (2 ^ 8) with 256.
    replace (c + 256 * rest) with (c + rest * 256) by lia.
    rewrite Z.mod_add by lia. apply Z.mod_small. lia. }
  split; [exact H1|]. split.
  - assert (H0 : Z.land c 255 = c).
    { change 255 with (Z.ones 8). rewrite Z.land_ones by lia.
      apply Z.mod_small. change (2 ^ 8) with 256. lia. }
    change 128 with (Z.land 255 128). rewrite !Z.land_assoc, H1, H0. reflexivity.
  - rewrite Z.shiftr_div_pow2 by lia. change (2 ^ 8) with 256.
    replace (c + 256 * rest) with (c + rest * 256) by lia.
    rewrite Z.div_add by lia. rewrite Z.div_small by lia. lia.
Qed.

(** ** The two loops of write_varlen *)

Section WriteVarlen.

Variable v : Z.
Hypothesis v_nonneg : 0 <= v.

Let g0 := Z.land v 127.
Let n := vlq_size v.

Lemma vlq_size_spec : 7 * Z.of_nat n <= Z.log2 v < 7 * Z.of_nat n + 7.
Proof.
  subst n. unfold vlq_size.
  pose proof (Z.log2_nonneg v) as Hl.
  rewrite Z2Nat.id by (apply Z.div_pos; lia).
  pose proof (Z.mul_div_le (Z.log2 v) 7 ltac:(lia)).
  pose proof (Z.mul_succ_div_gt (Z.log2 v) 7 ltac:(lia)). lia.
Qed.

(** The first loop runs while groups remain above the current one. *)
Lemma more_groups (i : nat) :
  (i < n)%nat -> Z.shiftr (Z.shiftr v (7 * Z.of_nat i)) 7 <> 0.
Proof.
  intros Hi H. rewrite Z.shiftr_shiftr in H by lia.
  apply Z.shiftr_eq_0_iff in H. pose proof vlq_size_spec.
  destruct H as [->|[_ H]]; [change (Z.log2 0) with 0 in *|]; lia.
Qed.

Lemma last_group : Z.shiftr (Z.shiftr v (7 * Z.of_nat n)) 7 = 0.
Proof.
  rewrite Z.shiftr_shiftr by lia. apply Z.shiftr_eq_0_iff.
  pose proof vlq_size_spec.
  destruct (Z.eq_dec v 0); [left; assumption | right; lia].
Qed.

Lemma write_varlen_pack_spec (k : nat) :
  forall (i fuel : nat), (i + k = n)%nat -> (k < fuel)%nat ->
    write_varlen_pack fuel (Z.shiftr v (7 * Z.of_nat i))
      (le_value (vlq_cont i v ++ [g0]))
    = Returned (le_value (vlq_cont n v ++ [g0])).
Proof.
  induction k as [|k IH]; intros i fuel Hik Hf;
    (destruct fuel as [|fuel]; [lia|]); cbn [write_varlen_pack].
  - replace i with n by lia. rewrite last_group. reflexivity.
  - pose proof (more_groups i ltac:(lia)) as Hm.
    apply Z.eqb_neq in Hm. rewrite Hm.
    rewrite Z.shiftr_shiftr by lia.
    replace (7 * Z.of_nat i + 7) with (7 * Z.of_nat (S i)) by lia.
    rewrite push_byte by (pose proof (vlq_cont_byte_range (Z.shiftr v (7 * Z.of_nat (S i)))); unfold vlq_cont_byte in *; lia).
    apply (IH (S i) fuel); lia.
Qed.

End WriteVarlen.

Lemma vlq_cont_bytes (n : nat) (v : Z) :
  Forall (fun c => 128 <= c < 256 /\ Z.land c 128 <> 0) (vlq_cont n v).
Proof.
  induction n as [|n IH]; cbn [vlq_cont]; constructor; auto.
  split; [apply vlq_cont_byte_range | apply vlq_cont_byte_high].
Qed.

(** The second loop emits the digits of the buffer up to the first one
    whose high bit is clear. *)
Lemma write_varlen_emit_spec (cs : list Z) :
  forall (g : Z) (out : list Z) (fuel : nat),
    Forall (fun c => 128 <= c < 256 /\ Z.land c 128 <> 0) cs ->
    0 <= g < 128 -> (length cs < fuel)%nat ->
    write_varlen_emit fuel (le_value (cs ++ [g])) out = Returned (out ++ cs ++ [g]).
Proof.
  induction cs as [|c cs IH]; intros g out fuel Hcs Hg Hf;
    (destruct fuel as [|fuel]; [cbn in Hf; lia|]); cbn [write_varlen_emit].
  - cbn [app le_value fold_right].
    destruct (low_byte g 0 ltac:(lia)) as (H1 & H2 & _).
    rewrite H1, H2.
    replace (Z.land g 128) with 0; [reflexivity|].
    symmetry. rewrite <- (Z.mod_small g 128) by lia.
    change 128 with (2 ^ 7) at 1. rewrite <- Z.land_ones by lia.
    change (Z.ones 7) with 127. apply land_127_low.
  - inversion Hcs as [|? ? [Hc Hh] Hcs']; subst.
    cbn [app le_value fold_right].
    destruct (low_byte c (le_value (cs ++ [g])) ltac:(lia)) as (H1 & H2 & H3).
    fold (le_value (cs ++ [g])). rewrite H1, H2, H3.
    apply Z.eqb_neq in Hh. rewrite Hh.
    rewrite IH by (cbn in Hf; auto; lia).
    rewrite <- app_assoc. reflexivity.
Qed.

Lemma vlq_cont_length (n : nat) (v : Z) : length (vlq_cont n v) = n.
Proof. induction n as [|n IH]; cbn [vlq_cont length]; congruence. Qed.

Lemma forallb_is_byte (bs : list Z) :
  Forall (fun b => 0 <= b < 256) bs -> bytes_of_ints bs = Returned bs.
Proof.
  intros H. unfold bytes_of_ints.
  replace (forallb is_byte bs) with true; [reflexivity|].
  symmetry. apply forallb_forall. intros b Hb.
  apply is_byte_range. rewrite Forall_forall in H. auto.
Qed.

Lemma vlq_encode_bytes (v : Z) : Forall (fun b => 0 <= b < 256) (vlq_encode v).
Proof.
  unfold vlq_encode. apply Forall_app. split.
  - eapply Forall_impl; [|apply vlq_cont_bytes]. cbn. intros; lia.
  - constructor; [|constructor]. pose proof (land_127_range v). lia.
Qed.

(** What [write_varlen] returns on a non-negative value: the standard
    encoding, reversed. *)
Lemma write_varlen_spec (v : Z) (fuel : nat) :
  0 <= v -> (vlq_size v < fuel)%nat ->
  write_varlen fuel v = Returned (rev (vlq_encode v)).
Proof.
  intros Hv Hf. unfold write_varlen.
  pose proof (write_varlen_pack_spec v Hv (vlq_size v) 0 fuel eq_refl Hf) as Hp.
  cbn [vlq_cont app le_value fold_right Z.of_nat] in Hp.
  rewrite Z.mul_0_r, Z.shiftr_0_r, Z.mul_0_r, Z.add_0_r in Hp.
  rewrite Hp. cbn [bind].
  rewrite write_varlen_emit_spec;
    [ | apply vlq_cont_bytes | apply land_127_range
      | rewrite vlq_cont_length; exact Hf ].
  cbn [bind app]. apply forallb_is_byte.
  apply Forall_rev. apply vlq_encode_bytes.
Qed.

(** On a negative value the first loop never ends: [value >> 7] stays
    negative. *)
Lemma write_varlen_pack_negative (fuel : nat) :
  forall value buffer, value < 0 -> write_varlen_pack fuel value buffer = OutOfFuel.
Proof.
  induction fuel as [|fuel IH]; intros value buffer Hv; [reflexivity|].
  cbn [write_varlen_pack].
  assert (Hs : Z.shiftr value 7 < 0) by (apply Z.shiftr_neg; exact Hv).
  destruct (Z.eqb_spec (Z.shiftr value 7) 0); [lia|]. apply IH. exact Hs.
Qed.

Lemma write_varlen_negative (fuel : nat) (value : Z) :
  value < 0 -> write_varlen fuel value = OutOfFuel.
Proof.
  intros Hv. unfold write_varlen.
  rewrite write_varlen_pack_negative by exact Hv. reflexivity.
Qed.

(** With too little fuel the first loop is cut short. *)
Lemma write_varlen_pack_short (v : Z) (k : nat) :
  0 <= v ->
  forall (i fuel : nat) (buffer : Z),
    (i + k = vlq_size v)%nat -> (fuel <= k)%nat ->
    write_varlen_pack fuel (Z.shiftr v (7 * Z.of_nat i)) buffer = OutOfFuel.
Proof.
  intros Hv.
  induction k as [|k IH]; intros i fuel buffer Hik Hf;
    (destruct fuel as [|fuel]; [reflexivity|]); [lia|].
  cbn [write_varlen_pack].
  pose proof (more_groups v Hv i ltac:(lia)) as Hm.
  apply Z.eqb_neq in Hm. rewrite Hm.
  rewrite Z.shiftr_shiftr by lia.
  replace (7 * Z.of_nat i + 7) with (7 * Z.of_nat (S i)) by lia.
  apply (IH (S i) fuel); lia.
Qed.

(** [write_varlen] in closed form: it never raises; it returns, on a
    non-negative value and with fuel for one more iteration than the value
    has continuation groups, the reversed standard encoding. *)
Lemma write_varlen_eq (fuel : nat) (value : Z) :
  write_varlen fuel value =
  if (0 <=? value) && (vlq_size value <? fuel)%nat
  then Returned (rev (vlq_encode value)) else OutOfFuel.
Proof.
  destruct (Z.leb_spec 0 value) as [Hv|Hv]; cbn [andb].
  - destruct (Nat.ltb_spec (vlq_size value) fuel) as [Hf|Hf].
    + apply write_varlen_spec; assumption.
    + unfold write_varlen.
      pose proof (write_varlen_pack_short value (vlq_size value) Hv 0 fuel
                    (Z.land value 127) eq_refl Hf) as Hp.
      cbn [Z.of_nat] in Hp. rewrite Z.mul_0_r, Z.shiftr_0_r in Hp.
      rewrite Hp. reflexivity.
  - apply write_varlen_negative. exact Hv.
Qed.

(** ** The standard decoder inverts the standard encoder *)

Lemma vlq_cont_byte_payload (g : Z) : Z.land (vlq_cont_byte g) 127 = g mod 128.
Proof.
  unfold vlq_cont_byte. rewrite Z.land_lor_distr_l.
  change (Z.land 128 127) with 0. rewrite Z.lor_0_r, <- Z.land_assoc.
  change (Z.land 127 127) with (Z.ones 7). rewrite Z.land_ones by lia.
  reflexivity.
Qed.

Lemma vlq_decode_cont (n : nat) (v : Z) :
  forall (acc : Z) (tail : bytes),
    vlq_decode_from acc (vlq_cont n v ++ tail)
    = vlq_decode_from (acc * 128 ^ Z.of_nat n
                       + Z.shiftr v 7 mod 128 ^ Z.of_nat n) tail.
Proof.
  induction n as [|n IH]; intros acc tail.
  - cbn [vlq_cont app Z.of_nat]. rewrite Z.pow_0_r, Z.mod_1_r. f_equal. lia.
  - cbn [vlq_cont app vlq_decode_from].
    pose proof (vlq_cont_byte_high (Z.shiftr v (7 * Z.of_nat (S n)))) as Hh.
    apply Z.eqb_neq in Hh. rewrite Hh, IH, vlq_cont_byte_payload. f_equal.
    replace (Z.of_nat (S n)) with (Z.of_nat n + 1) by lia.
    rewrite Z.pow_add_r, Z.pow_1_r by lia.
    assert (Hp : 0 < 128 ^ Z.of_nat n) by (apply Z.pow_pos_nonneg; lia).
    rewrite (Z.rem_mul_r (Z.shiftr v 7) (128 ^ Z.of_nat n) 128) by lia.
    replace (Z.shiftr v (7 * (Z.of_nat n + 1)))
      with (Z.shiftr v 7 / 128 ^ Z.of_nat n).
    + lia.
    + replace (7 * (Z.of_nat n + 1)) with (7 + 7 * Z.of_nat n) by lia.
      rewrite <- Z.shiftr_shiftr by lia.
      rewrite (Z.shiftr_div_pow2 _ (7 * Z.of_nat n)) by lia.
      rewrite Z.pow_mul_r by lia. reflexivity.
Qed.

Lemma vlq_decode_encode (v : Z) (rest : bytes) :
  0 <= v -> vlq_decode (vlq_encode v ++ rest) = Some (v, rest).
Proof.
  intros Hv. unfold vlq_decode, vlq_encode.
  rewrite <- app_assoc, vlq_decode_cont. cbn [app vlq_decode_from].
  rewrite land_127_low. cbn [Z.eqb]. do 2 f_equal.
  set (n := vlq_size v).
  rewrite <- Z.land_assoc. change (Z.land 127 127) with (Z.ones 7).
  rewrite Z.land_ones by lia.
  rewrite Z.shiftr_div_pow2 by lia. change (2 ^ 7) with 128.
  assert (Hp : 0 < 128 ^ Z.of_nat n) by (apply Z.pow_pos_nonneg; lia).
  rewrite Z.mul_0_l, Z.add_0_l.
  assert (Hlt : v < 128 * 128 ^ Z.of_nat n).
  { destruct (Z.eq_dec v 0) as [->|Hnz]; [lia|].
    pose proof (vlq_size_spec v) as Hs. fold n in Hs.
    replace (128 * 128 ^ Z.of_nat n) with (2 ^ (7 * Z.of_nat n + 7)).
    - apply Z.log2_lt_pow2; lia.
    - rewrite Z.pow_add_r, Z.pow_mul_r by lia. change (2 ^ 7) with 128. lia. }
  rewrite Z.mod_small.
  - pose proof (Z.div_mod v 128 ltac:(lia)). lia.
  - split; [apply Z.div_pos; lia|]. apply Z.div_lt_upper_bound; lia.
Qed.

(** ** Big-endian fields *)

Lemma be_value_snoc (bs : bytes) (b : Z) :
  be_value (bs ++ [b]) = be_value bs * 256 + b.
Proof. unfold be_value. rewrite fold_left_app. reflexivity. Qed.

Lemma be_bytes_length (n : nat) (v : Z) : length (be_bytes n v) = n.
Proof.
  revert v. induction n as [|n IH]; intros v; cbn [be_bytes]; [reflexivity|].
  rewrite length_app, IH. cbn. lia.
Qed.

Lemma be_value_bytes (n : nat) :
  forall v, be_value (be_bytes n v) = v mod 256 ^ Z.of_nat n.
Proof.
  induction n as [|n IH]; intros v.
  - cbn. rewrite Z.mod_1_r. reflexivity.
  - cbn [be_bytes]. rewrite be_value_snoc, IH.
    replace (Z.of_nat (S n)) with (1 + Z.of_nat n) by lia.
    rewrite Z.pow_add_r, Z.pow_1_r by lia.
    assert (Hp : 0 < 256 ^ Z.of_nat n) by (apply Z.pow_pos_nonneg; lia).
    rewrite (Z.rem_mul_r v 256 (256 ^ Z.of_nat n)) by lia.
    change 255 with (Z.ones 8). rewrite Z.land_ones, Z.shiftr_div_pow2 by lia.
    change (2 ^ 8) with 256. lia.
Qed.

Lemma be_bytes_range (n : nat) :
  forall v, Forall (fun b => 0 <= b < 256) (be_bytes n v).
Proof.
  induction n as [|n IH]; intros v; cbn [be_bytes]; [constructor|].
  apply Forall_app. split; [apply IH|].
  constructor; [apply land_255_range | constructor].
Qed.

(** ** The shape of the file *)

Lemma create_midi_notes_acc (fuel : nat) (notes : list note) :
  forall (last_time : float) (track_data : bytes),
    create_midi_notes fuel notes last_time track_data
    = (events <- create_midi_notes fuel notes last_time [] ;;
       Returned (track_data ++ events)).
Proof.
  induction notes as [|[[[start pitch] dur] vel] notes IH];
    intros last_time track_data; cbn [create_midi_notes bind].
  - rewrite app_nil_r. reflexivity.
  - destruct (int_of_float (fmul (fsub start last_time) (float_of_int PPQ)));
      cbn [bind]; try reflexivity.
    destruct (int_of_float (fmul dur (float_of_int PPQ)));
      cbn [bind]; try reflexivity.
    destruct (write_varlen fuel a); cbn [bind]; try reflexivity.
    destruct (bytes_of_ints [pitch; vel]); cbn [bind]; try reflexivity.
    destruct (write_varlen fuel a0); cbn [bind]; try reflexivity.
    destruct (bytes_of_ints [pitch; 0]); cbn [bind]; try reflexivity.
    rewrite IH. symmetry. rewrite IH.
    destruct (create_midi_notes fuel notes (fadd start dur) []);
      cbn [bind]; try reflexivity.
    rewrite !app_nil_l, !app_assoc. reflexivity.
Qed.

(** [create_midi] with its constants evaluated. *)
Lemma create_midi_eq (fuel : nat) (filename : String.string)
    (notes : list note) (tempo : Z) :
  create_midi fuel filename notes tempo
  = (us <- microseconds_per_beat tempo ;;
     _ <- pack_L us ;;
     events <- create_midi_notes fuel notes (float_of_int 0) [] ;;
     let track_data := set_tempo us ++ events ++ end_of_track in
     len <- pack_L (Z.of_nat (length track_data)) ;;
     Returned (header_chunk ++ MTrk ++ len ++ track_data)).
Proof.
  unfold create_midi.
  destruct (microseconds_per_beat tempo) as [us| |]; cbn [bind]; try reflexivity.
  unfold pack_L at 1 3.
  destruct ((0 <=? us) && (us <=? 4294967295)); cbn [bind]; [|reflexivity].
  rewrite create_midi_notes_acc.
  destruct (create_midi_notes fuel notes (float_of_int 0) []) as [events| |];
    cbn [bind]; try reflexivity.
Qed.

(** ** Binary64 division of integers *)

Lemma digits2_pos_bounds (p : positive) :
  2 ^ (Z.pos (digits2_pos p) - 1) <= Z.pos p < 2 ^ Z.pos (digits2_pos p).
Proof.
  induction p as [p IH|p IH|]; cbn [digits2_pos].
  - rewrite Pos2Z.inj_succ. replace (Z.succ (Z.pos (digits2_pos p)) - 1)
      with (Z.succ (Z.pos (digits2_pos p) - 1)) by lia.
    rewrite !Z.pow_succ_r by lia. lia.
  - rewrite Pos2Z.inj_succ. replace (Z.succ (Z.pos (digits2_pos p)) - 1)
      with (Z.succ (Z.pos (digits2_pos p) - 1)) by lia.
    rewrite !Z.pow_succ_r by lia. lia.
  - cbn. lia.
Qed.

Lemma digits2_pos_unique (p : positive) (d : Z) :
  2 ^ (d - 1) <= Z.pos p < 2 ^ d -> Z.pos (digits2_pos p) = d.
Proof.
  intros [Hl Hu]. pose proof (digits2_pos_bounds p) as [Bl Bu].
  assert (Hd : 0 < d).
  { destruct (Z.ltb_spec 0 d); [assumption|].
    assert (2 ^ d <= 1); [|lia].
    destruct (Z.eq_dec d 0) as [->|]; [cbn; lia|].
    rewrite Z.pow_neg_r by lia. lia. }
  destruct (Z.lt_trichotomy (Z.pos (digits2_pos p)) d) as [H|[H|H]]; [|exact H|].
  - assert (2 ^ Z.pos (digits2_pos p) <= 2 ^ (d - 1))
      by (apply Z.pow_le_mono_r; lia). lia.
  - assert (2 ^ d <= 2 ^ (Z.pos (digits2_pos p) - 1))
      by (apply Z.pow_le_mono_r; lia). lia.
Qed.

Lemma iter_xO (p : positive) (d : positive) :
  Z.pos (Pos.iter xO p d) = Z.pos p * 2 ^ Z.pos d.
Proof.
  induction d as [|d IH] using Pos.peano_ind.
  - cbn. lia.
  - rewrite Pos.iter_succ, Pos2Z.inj_succ, Z.pow_succ_r by lia.
    rewrite Pos2Z.inj_xO, IH. lia.
Qed.

Lemma Zdigits2_53 (p : positive) :
  2 ^ 52 <= Z.pos p < 2 ^ 53 -> Zdigits2 (Z.pos p) = 53.
Proof. intros H. cbn [Zdigits2]. apply digits2_pos_unique. exact H. Qed.

Lemma Zdigits2_54 (p : positive) :
  2 ^ 53 <= Z.pos p < 2 ^ 54 -> Zdigits2 (Z.pos p) = 54.
Proof. intros H. cbn [Zdigits2]. apply digits2_pos_unique. exact H. Qed.

(** No shift for a mantissa of 53 digits, one for a mantissa of 54. *)
Lemma shr_fexp_53 (p : positive) (e : Z) (l : location) :
  2 ^ 52 <= Z.pos p < 2 ^ 53 -> -1074 <= e ->
  shr_fexp prec emax (Z.pos p) e l = (shr_record_of_loc (Z.pos p) l, e).
Proof.
  intros Hp He. unfold shr_fexp. rewrite Zdigits2_53 by exact Hp.
  unfold fexp, emin, prec, emax.
  replace (Z.max (53 + e - 53) (3 - 1024 - 53) - e) with 0 by lia.
  reflexivity.
Qed.

Lemma shr_fexp_54 (p : positive) (e : Z) (l : location) :
  2 ^ 53 <= Z.pos p < 2 ^ 54 -> -1074 <= e ->
  shr_fexp prec emax (Z.pos p) e l = (shr_1 (shr_record_of_loc (Z.pos p) l), e + 1).
Proof.
  intros Hp He. unfold shr_fexp. rewrite Zdigits2_54 by exact Hp.
  unfold fexp, emin, prec, emax.
  replace (Z.max (54 + e - 53) (3 - 1024 - 53) - e) with 1 by lia.
  reflexivity.
Qed.

Lemma shr_m_of_loc (m : Z) (l : location) : shr_m (shr_record_of_loc m l) = m.
Proof. destruct l as [|[| |]]; reflexivity. Qed.

Lemma shr_m_shr_1 (p : positive) (l : location) :
  shr_m (shr_1 (shr_record_of_loc (Z.pos p) l)) = Z.pos p / 2.
Proof.
  destruct l as [|[| |]]; destruct p as [p|p|]; cbn [shr_record_of_loc shr_1 shr_m];
    try reflexivity.
  all: try (rewrite Pos2Z.inj_xI; apply Z.div_unique with 1; lia).
  all: try (rewrite Pos2Z.inj_xO; apply Z.div_unique with 0; lia).
Qed.

Lemma round_nearest_even_bounds (m : Z) (l : location) :
  m <= round_nearest_even m l <= m + 1.
Proof.
  destruct l as [|[| |]]; cbn [round_nearest_even]; try lia.
  destruct (Z.even m); lia.
Qed.

Lemma binary_round_aux_eq (s : bool) (m e : Z) (l : location) :
  binary_round_aux prec emax s m e l
  = (let '(mrs, e') := shr_fexp prec emax m e l in
     round_finish s (round_nearest_even (shr_m mrs) (loc_of_shr_record mrs)) e').
Proof. reflexivity. Qed.

Lemma round_finish_spec (s : bool) (m : positive) (e : Z) :
  2 ^ 52 <= Z.pos m <= 2 ^ 53 -> -1074 <= e <= 970 ->
  exists m' e', round_finish s (Z.pos m) e = S754_finite s m' e' /\
                e <= e' <= e + 1 /\ Z.pos m' * 2 ^ (e' - e) = Z.pos m.
Proof.
  intros Hm He. unfold round_finish.
  destruct (Z.ltb_spec (Z.pos m) (2 ^ 53)) as [Hlt|Hge].
  - rewrite shr_fexp_53 by lia. cbn [shr_record_of_loc shr_m].
    unfold emax, prec. destruct (Z.leb_spec e (1024 - 53)); [|lia].
    exists m, e. split; [reflexivity|]. split; [lia|].
    rewrite Z.sub_diag. cbn. lia.
  - assert (Hm' : Z.pos m = 2 ^ 53) by lia.
    change (2 ^ 53) with (Z.pos 9007199254740992) in Hm'.
    injection Hm' as ->.
    rewrite shr_fexp_54 by (cbn; lia). cbn [shr_record_of_loc shr_1 shr_m].
    unfold emax, prec. destruct (Z.leb_spec (e + 1) (1024 - 53)); [|lia].
    exists 4503599627370496%positive, (e + 1). split; [reflexivity|].
    split; [lia|]. replace (e + 1 - e) with 1 by lia. reflexivity.
Qed.

(** Rounding a quotient of 53 or 54 digits moves it by less than three
    units of its last place, and never below its even part. *)
Lemma binary_round_aux_bounds (s : bool) (q : positive) (e : Z) (l : location) :
  2 ^ 52 <= Z.pos q < 2 ^ 54 -> -1074 <= e <= 969 ->
  exists m' e', binary_round_aux prec emax s (Z.pos q) e l = S754_finite s m' e' /\
                e <= e' <= e + 2 /\
                2 * (Z.pos q / 2) <= Z.pos m' * 2 ^ (e' - e) <= Z.pos q + 2.
Proof.
  intros Hq He. rewrite binary_round_aux_eq.
  pose proof (Z.div_mod (Z.pos q) 2 ltac:(lia)) as Hdm.
  pose proof (Z.mod_pos_bound (Z.pos q) 2 ltac:(lia)) as Hmod.
  destruct (Z.ltb_spec (Z.pos q) (2 ^ 53)) as [Hlt|Hge].
  - rewrite shr_fexp_53 by lia. cbv beta iota. rewrite shr_m_of_loc.
    pose proof (round_nearest_even_bounds (Z.pos q)
                  (loc_of_shr_record (shr_record_of_loc (Z.pos q) l))) as Hr.
    destruct (round_nearest_even _ _) as [|m1|m1]; try lia.
    destruct (round_finish_spec s m1 e) as (m' & e' & -> & He' & Hv); try lia.
    exists m', e'. split; [reflexivity|]. split; lia.
  - rewrite shr_fexp_54 by lia. cbv beta iota.
    pose proof (shr_m_shr_1 q l) as Hm0.
    set (mrs := shr_1 (shr_record_of_loc (Z.pos q) l)) in *.
    pose proof (round_nearest_even_bounds (shr_m mrs) (loc_of_shr_record mrs)) as Hr.
    assert (Hq2 : 2 ^ 52 <= Z.pos q / 2 < 2 ^ 53).
    { change (2 ^ 53) with (2 * 2 ^ 52) in Hge.
      change (2 ^ 54) with (2 * 2 ^ 53) in Hq. lia. }
    destruct (round_nearest_even _ _) as [|m1|m1]; rewrite Hm0 in Hr; try lia.
    destruct (round_finish_spec s m1 (e + 1)) as (m' & e' & -> & He' & Hv); try lia.
    exists m', e'. split; [reflexivity|]. split; [lia|].
    replace (e' - e) with (1 + (e' - (e + 1))) by lia.
    rewrite Z.pow_add_r by lia. change (2 ^ 1) with 2. lia.
Qed.

(** The arithmetic of the argument: [a / b] scaled by [T] and perturbed
    by a rounding of at most two units still truncates to [a / b], because
    [a / b] stays [1 / b] away from the next integer and [T] exceeds
    [2 * b]. *)
Lemma scaled_quotient_floor (a b T2 Q W : Z) :
  0 <= a -> 0 < b -> 0 < T2 -> b < T2 ->
  Q = (a * (2 * T2)) / b ->
  2 * (Q / 2) <= W <= Q + 2 ->
  W / (2 * T2) = a / b.
Proof.
  intros Ha Hb HT HbT HQ HW.
  pose proof (Z.div_mod a b ltac:(lia)) as Hab.
  pose proof (Z.mod_pos_bound a b Hb) as Hr.
  set (k := a / b) in *. set (r := a mod b) in *.
  pose proof (Z.div_mod (a * (2 * T2)) b ltac:(lia)) as HQd.
  pose proof (Z.mod_pos_bound (a * (2 * T2)) b Hb) as HQr.
  rewrite <- HQ in HQd. set (rq := (a * (2 * T2)) mod b) in *.
  pose proof (Z.div_mod Q 2 ltac:(lia)) as HQ2.
  pose proof (Z.mod_pos_bound Q 2 ltac:(lia)) as HQ2r.
  set (h := Q / 2) in *. set (p := Q mod 2) in *.
  assert (Hlow : k * T2 <= h).
  { assert (b * (2 * (k * T2)) < b * (2 * h + 2)); [|nia].
    assert (b * (2 * (k * T2)) <= a * (2 * T2)) by nia. nia. }
  assert (Hup : Q + 2 < (k + 1) * (2 * T2)).
  { assert (b * (Q + 2) < b * ((k + 1) * (2 * T2))); [|nia].
    assert (a * (2 * T2) <= ((k + 1) * b - 1) * (2 * T2)) by nia. nia. }
  symmetry. apply Z.div_unique with (W - k * (2 * T2)); lia.
Qed.

Lemma binary_round_aux_exact (s : bool) (m : positive) (e : Z) :
  2 ^ 52 <= Z.pos m < 2 ^ 53 -> -1074 <= e <= 971 ->
  binary_round_aux prec emax s (Z.pos m) e loc_Exact = S754_finite s m e.
Proof.
  intros Hm He. rewrite binary_round_aux_eq, shr_fexp_53 by lia.
  cbn [shr_record_of_loc shr_m loc_of_shr_record round_nearest_even].
  unfold round_finish. rewrite shr_fexp_53 by lia.
  cbn [shr_record_of_loc shr_m]. unfold emax, prec.
  destruct (Z.leb_spec e (1024 - 53)); [reflexivity | lia].
Qed.

(** The float of an integer below [2^53] is exact, with a mantissa of 53
    digits. *)
Lemma binary_round_int (s : bool) (p : positive) :
  Z.pos p < 2 ^ 53 ->
  exists m e, binary_round prec emax s p 0 = S754_finite s m e /\
              2 ^ 52 <= Z.pos m < 2 ^ 53 /\ -52 <= e <= 0 /\
              Z.pos m = Z.pos p * 2 ^ (- e).
Proof.
  intros Hp. pose proof (digits2_pos_bounds p) as [Bl Bu].
  set (d := Z.pos (digits2_pos p)) in *.
  assert (Hd : 1 <= d <= 53).
  { split; [subst d; lia|].
    destruct (Z.leb_spec d 53) as [H|H]; [exact H|].
    assert (2 ^ 53 <= 2 ^ (d - 1)) by (apply Z.pow_le_mono_r; lia). lia. }
  unfold binary_round, shl_align. fold d.
  unfold fexp, emin, prec, emax.
  replace (Z.max (d + 0 - 53) (3 - 1024 - 53)) with (d - 53) by lia.
  destruct (d - 53 - 0) as [|k|k] eqn:Hk; try lia.
  - rewrite binary_round_aux_exact by (replace d with 53 in * by lia; lia).
    exists p, 0. replace d with 53 in * by lia.
    split; [reflexivity|]. split; [lia|]. split; [lia|]. cbn. lia.
  - assert (Hm : Z.pos (Pos.iter xO p k) = Z.pos p * 2 ^ (53 - d)).
    { rewrite iter_xO. do 2 f_equal. lia. }
    assert (Hpow : 2 ^ (d - 1) * 2 ^ (53 - d) = 2 ^ 52).
    { rewrite <- Z.pow_add_r by lia. f_equal. lia. }
    assert (Hpow' : 2 ^ d * 2 ^ (53 - d) = 2 ^ 53).
    { rewrite <- Z.pow_add_r by lia. f_equal. lia. }
    assert (Hc : 0 < 2 ^ (53 - d)) by (apply Z.pow_pos_nonneg; lia).
    assert (Hr : 2 ^ 52 <= Z.pos (Pos.iter xO p k) < 2 ^ 53).
    { rewrite Hm, <- Hpow, <- Hpow'. split.
      - apply Z.mul_le_mono_nonneg_r; lia.
      - apply Z.mul_lt_mono_pos_r; lia. }
    rewrite binary_round_aux_exact by lia.
    exists (Pos.iter xO p k), (d - 53).
    split; [reflexivity|]. split; [exact Hr|]. split; [lia|].
    rewrite Hm. do 2 f_equal. lia.
Qed.

Lemma SFdiv_core_53 (mx my : positive) (ey : Z) :
  2 ^ 52 <= Z.pos mx < 2 ^ 53 -> 2 ^ 52 <= Z.pos my < 2 ^ 53 ->
  -52 <= ey <= 971 ->
  exists l, SFdiv_core_binary prec emax (Z.pos mx) (-27) (Z.pos my) ey
            = (Z.pos mx * 2 ^ 53 / Z.pos my, -80 - ey, l).
Proof.
  intros Hx Hy He. unfold SFdiv_core_binary.
  rewrite !Zdigits2_53 by assumption.
  replace (Z.min (fexp prec emax (53 + -27 - (53 + ey))) (-27 - ey))
    with (-80 - ey) by (unfold fexp, emin, prec, emax; lia).
  replace (-27 - ey - (-80 - ey)) with 53 by lia.
  cbv iota. rewrite Z.shiftl_mul_pow2 by lia.
  unfold Z.div.
  destruct (Z.div_eucl (Z.pos mx * 2 ^ 53) (Z.pos my)) as [q r].
  eexists. reflexivity.
Qed.

(** [int(60000000 / tempo)] is the truncated integer quotient: the float
    division rounds, but never up to the next integer. *)
Lemma int_of_float_div_60000000 (s : bool) (p : positive) :
  Z.pos p < 2 ^ 53 ->
  int_of_float (SFdiv prec emax (float_of_int 60000000)
                                (binary_round prec emax s p 0))
  = Returned (cond_Zopp s (60000000 / Z.pos p)).
Proof.
  intros Hp.
  destruct (binary_round_int s p Hp) as (mb & eb & -> & Hmb & Heb & Hval).
  replace (float_of_int 60000000)
    with (S754_finite false 8053063680000000 (-27)) by (vm_compute; reflexivity).
  cbn [SFdiv].
  destruct (SFdiv_core_53 8053063680000000 mb eb) as [l ->];
    [cbn; lia | exact Hmb | lia |].
  set (c := 2 ^ (- eb)) in *.
  assert (Hc : 0 < c) by (apply Z.pow_pos_nonneg; lia).
  set (T2 := 2 ^ (79 + eb)).
  assert (HT2 : 0 < T2) by (apply Z.pow_pos_nonneg; lia).
  assert (HTc : T2 * c = 2 ^ 79).
  { unfold T2, c. rewrite <- Z.pow_add_r by lia. f_equal. lia. }
  assert (HQ : Z.pos 8053063680000000 * 2 ^ 53 / Z.pos mb
               = 60000000 * (2 * T2) / Z.pos p).
  { rewrite Hval.
    replace (Z.pos 8053063680000000 * 2 ^ 53)
      with (60000000 * (2 * T2) * c)
      by (replace (60000000 * (2 * T2) * c) with (120000000 * (T2 * c)) by ring;
          rewrite HTc; reflexivity).
    apply Z.div_mul_cancel_r; lia. }
  set (Q := Z.pos 8053063680000000 * 2 ^ 53 / Z.pos mb) in *.
  assert (HQr : 2 ^ 52 <= Q < 2 ^ 54).
  { unfold Q. split.
    - apply Z.div_le_lower_bound; [lia|].
      change (Z.pos 8053063680000000 * 2 ^ 53)
        with (2 ^ 53 * Z.pos 8053063680000000).
      change (2 ^ 52) with 4503599627370496.
      change (2 ^ 53) with 9007199254740992 in *. nia.
    - apply Z.div_lt_upper_bound; [lia|].
      change (2 ^ 52) with 4503599627370496 in *.
      change (2 ^ 53) with 9007199254740992 in *.
      change (2 ^ 54) with 18014398509481984. nia. }
  destruct Q as [|q|q] eqn:HQe; try lia.
  destruct (binary_round_aux_bounds (xorb false s) q (-80 - eb) l)
    as (m' & e' & -> & He' & HW); [exact HQr | lia |].
  cbn [int_of_float xorb]. do 2 f_equal.
  assert (He'n : e' < 0) by lia.
  destruct e' as [|e'|e']; try lia.
  change (Z.shiftl (Z.pos m') (Z.neg e'))
    with (Z.shiftr (Z.pos m') (Z.pos e')).
  rewrite Z.shiftr_div_pow2 by lia.
  set (u := 2 ^ (Z.neg e' - (-80 - eb))) in *.
  assert (Hu : 0 < u) by (apply Z.pow_pos_nonneg; lia).
  assert (Hsplit : 2 * T2 = 2 ^ Z.pos e' * u).
  { unfold T2, u. change 2 with (2 ^ 1) at 1.
    rewrite <- !Z.pow_add_r by lia. f_equal. lia. }
  rewrite <- (Z.div_mul_cancel_r (Z.pos m') (2 ^ Z.pos e') u) by lia.
  rewrite <- Hsplit.
  apply scaled_quotient_floor with (Q := Z.pos q); try lia.
  assert (Z.pos p * c < 2 ^ 53) by lia.
  assert (2 ^ 53 <= T2 * c) by (rewrite HTc; cbn; lia).
  nia.
Qed.

(** *** Divisors of 54 digits and more *)

Lemma shr_1_m (r : shr_record) :
  0 <= shr_m r -> shr_m (shr_1 r) = shr_m r / 2.
Proof.
  destruct r as [m b1 b2]. cbn [shr_m shr_1]. intros Hm.
  destruct m as [|[p|p|]|p]; cbn [shr_m]; try reflexivity; try lia.
  - rewrite Pos2Z.inj_xI. apply Z.div_unique with 1; lia.
  - rewrite Pos2Z.inj_xO. apply Z.div_unique with 0; lia.
Qed.

Lemma iter_pos_shr_1_m (n : positive) :
  forall r, 0 <= shr_m r ->
            shr_m (iter_pos shr_1 n r) = shr_m r / 2 ^ Z.pos n.
Proof.
  induction n as [n IH|n IH|]; intros r Hr; cbn [iter_pos].
  - assert (H1 : 0 <= shr_m (shr_1 r))
      by (rewrite shr_1_m by exact Hr; apply Z.div_pos; lia).
    assert (H2 : 0 <= shr_m (iter_pos shr_1 n (shr_1 r)))
      by (rewrite IH by exact H1; apply Z.div_pos; [exact H1|];
          apply Z.pow_pos_nonneg; lia).
    rewrite IH, IH, shr_1_m by assumption.
    assert (Hp : 0 < 2 ^ Z.pos n) by (apply Z.pow_pos_nonneg; lia).
    rewrite !Z.div_div by lia. f_equal.
    rewrite Pos2Z.inj_xI.
    replace (2 * Z.pos n + 1) with (1 + Z.pos n + Z.pos n) by lia.
    rewrite !Z.pow_add_r by lia. change (2 ^ 1) with 2. ring.
  - assert (H2 : 0 <= shr_m (iter_pos shr_1 n r))
      by (rewrite IH by exact Hr; apply Z.div_pos; [exact Hr|];
          apply Z.pow_pos_nonneg; lia).
    rewrite IH, IH by assumption.
    assert (Hp : 0 < 2 ^ Z.pos n) by (apply Z.pow_pos_nonneg; lia).
    rewrite !Z.div_div by lia. f_equal.
    replace (Z.pos n~0) with (Z.pos n + Z.pos n) by lia.
    rewrite !Z.pow_add_r by lia. ring.
  - apply shr_1_m. exact Hr.
Qed.

Lemma round_finish_cases (s : bool) (m : positive) (e : Z) :
  2 ^ 52 <= Z.pos m <= 2 ^ 53 -> -1074 <= e ->
  round_finish s (Z.pos m) e = S754_infinity s \/
  exists m' e', round_finish s (Z.pos m) e = S754_finite s m' e' /\
                2 ^ 52 <= Z.pos m' < 2 ^ 53 /\ e <= e' <= 971.
Proof.
  intros Hm He. unfold round_finish.
  destruct (Z.ltb_spec (Z.pos m) (2 ^ 53)) as [Hlt|Hge].
  - rewrite shr_fexp_53 by lia. cbn [shr_record_of_loc shr_m].
    unfold emax, prec. destruct (Z.leb_spec e (1024 - 53)); [|left; reflexivity].
    right. exists m, e. split; [reflexivity|]. lia.
  - assert (Hm' : Z.pos m = 2 ^ 53) by lia.
    change (2 ^ 53) with (Z.pos 9007199254740992) in Hm'.
    injection Hm' as ->.
    rewrite shr_fexp_54 by (cbn; lia). cbn [shr_record_of_loc shr_1 shr_m].
    unfold emax, prec.
    destruct (Z.leb_spec (e + 1) (1024 - 53)); [|left; reflexivity].
    right. exists 4503599627370496%positive, (e + 1).
    split; [reflexivity|]. split; [cbn; lia | lia].
Qed.

(** The float of an integer of more than 53 bits: an infinity, or a
    float of at least [2^53]. *)
Lemma binary_round_big (s : bool) (p : positive) :
  2 ^ 53 <= Z.pos p ->
  binary_round prec emax s p 0 = S754_infinity s \/
  exists m e, binary_round prec emax s p 0 = S754_finite s m e /\
              2 ^ 52 <= Z.pos m < 2 ^ 53 /\ 1 <= e <= 971.
Proof.
  intros Hp. pose proof (digits2_pos_bounds p) as [Bl Bu].
  set (d := Z.pos (digits2_pos p)) in *.
  assert (Hd : 54 <= d).
  { destruct (Z.leb_spec 54 d) as [H|H]; [exact H|].
    assert (2 ^ d <= 2 ^ 53) by (apply Z.pow_le_mono_r; lia). lia. }
  unfold binary_round, shl_align. fold d.
  replace (fexp prec emax (d + 0)) with (d - 53)
    by (unfold fexp, emin, prec, emax; lia).
  destruct (d - 53 - 0) as [|k|k] eqn:Hk; try lia.
  rewrite binary_round_aux_eq. unfold shr_fexp. cbn [Zdigits2]. fold d.
  replace (fexp prec emax (d + 0) - 0) with (Z.pos k)
    by (unfold fexp, emin, prec, emax; lia).
  cbn [shr]. cbv beta iota.
  set (mrs := iter_pos shr_1 k (shr_record_of_loc (Z.pos p) loc_Exact)).
  assert (Hm0 : shr_m mrs = Z.pos p / 2 ^ Z.pos k)
    by (unfold mrs; rewrite iter_pos_shr_1_m; cbn [shr_record_of_loc shr_m];
        [reflexivity | lia]).
  assert (Hc : 0 < 2 ^ Z.pos k) by (apply Z.pow_pos_nonneg; lia).
  assert (Hr0 : 2 ^ 52 <= shr_m mrs < 2 ^ 53).
  { rewrite Hm0. split.
    - apply Z.div_le_lower_bound; [lia|].
      rewrite <- Z.pow_add_r by lia.
      replace (Z.pos k + 52) with (d - 1) by lia. exact Bl.
    - apply Z.div_lt_upper_bound; [lia|].
      rewrite <- Z.pow_add_r by lia.
      replace (Z.pos k + 53) with d by lia. exact Bu. }
  pose proof (round_nearest_even_bounds (shr_m mrs) (loc_of_shr_record mrs)) as Hr.
  destruct (round_nearest_even _ _) as [|m1|m1]; try lia.
  destruct (round_finish_cases s m1 (0 + Z.pos k)) as [Hi|(m' & e' & Hf & Hm' & He')];
    [lia | lia | left; exact Hi |].
  right. exists m', e'. split; [exact Hf|]. split; [exact Hm'|lia].
Qed.

(** Divided by a float of at least [2^53], or by an infinity, 60000000
    truncates to zero. *)
Lemma int_of_float_div_big (s : bool) (y : float) :
  (y = S754_infinity s \/
   exists m e, y = S754_finite s m e /\
               2 ^ 52 <= Z.pos m < 2 ^ 53 /\ 1 <= e <= 971) ->
  int_of_float (SFdiv prec emax (float_of_int 60000000) y) = Returned 0.
Proof.
  replace (float_of_int 60000000)
    with (S754_finite false 8053063680000000 (-27)) by (vm_compute; reflexivity).
  intros [->|(mb & eb & -> & Hmb & Heb)]; [reflexivity|].
  cbn [SFdiv].
  destruct (SFdiv_core_53 8053063680000000 mb eb) as [l ->];
    [cbn; lia | exact Hmb | lia |].
  set (Q := Z.pos 8053063680000000 * 2 ^ 53 / Z.pos mb) in *.
  assert (HQr : 2 ^ 52 <= Q < 2 ^ 54).
  { unfold Q. split.
    - apply Z.div_le_lower_bound; [lia|].
      change (Z.pos 8053063680000000 * 2 ^ 53)
        with (2 ^ 53 * Z.pos 8053063680000000).
      change (2 ^ 52) with 4503599627370496.
      change (2 ^ 53) with 9007199254740992 in *. nia.
    - apply Z.div_lt_upper_bound; [lia|].
      change (2 ^ 52) with 4503599627370496 in *.
      change (2 ^ 53) with 9007199254740992 in *.
      change (2 ^ 54) with 18014398509481984. nia. }
  destruct Q as [|q|q] eqn:HQe; try lia.
  destruct (binary_round_aux_bounds (xorb false s) q (-80 - eb) l)
    as (m' & e' & -> & He' & HW); [exact HQr | lia |].
  cbn [int_of_float xorb]. f_equal.
  destruct e' as [|e'|e']; try lia.
  change (Z.shiftl (Z.pos m') (Z.neg e'))
    with (Z.shiftr (Z.pos m') (Z.pos e')).
  rewrite Z.shiftr_div_pow2 by lia.
  assert (Hu : 1 <= 2 ^ (Z.neg e' - (-80 - eb)))
    by (apply (Z.pow_le_mono_r 2 0); lia).
  assert (Hbig : 2 ^ 55 <= 2 ^ Z.pos e') by (apply Z.pow_le_mono_r; lia).
  change (2 ^ 54) with 18014398509481984 in HQr.
  change (2 ^ 55) with 36028797018963968 in Hbig.
  rewrite Z.div_small by nia. destruct s; reflexivity.
Qed.

(** [int(60000000 / tempo)], for every tempo but zero, is the integer
    quotient truncated towards zero. *)
Lemma microseconds_per_beat_quot (tempo : Z) :
  tempo <> 0 -> microseconds_per_beat tempo = Returned (60000000 ÷ tempo).
Proof.
  intros Ht. unfold microseconds_per_beat, int_true_div.
  destruct (Z.eqb_spec tempo 0) as [|_]; [contradiction|]. cbn [bind].
  destruct tempo as [|p|p]; [contradiction| |].
  - change (float_of_int (Z.pos p)) with (binary_round prec emax false p 0).
    destruct (Z.ltb_spec (Z.pos p) (2 ^ 53)) as [Hs|Hb].
    + rewrite int_of_float_div_60000000 by exact Hs.
      cbn [cond_Zopp]. rewrite Z.quot_div_nonneg by lia. reflexivity.
    + rewrite (int_of_float_div_big false) by (apply binary_round_big; exact Hb).
      rewrite Z.quot_small; [reflexivity|].
      change (2 ^ 53) with 9007199254740992 in Hb. lia.
  - change (float_of_int (Z.neg p)) with (binary_round prec emax true p 0).
    change (Z.neg p) with (- Z.pos p). rewrite Z.quot_opp_r by lia.
    destruct (Z.ltb_spec (Z.pos p) (2 ^ 53)) as [Hs|Hb].
    + rewrite int_of_float_div_60000000 by exact Hs.
      cbn [cond_Zopp]. rewrite Z.quot_div_nonneg by lia. reflexivity.
    + rewrite (int_of_float_div_big true) by (apply binary_round_big; exact Hb).
      rewrite Z.quot_small; [reflexivity|].
      change (2 ^ 53) with 9007199254740992 in Hb. lia.
Qed.

(** * The claims of the specification *)

(** C1.  [write_varlen] does not produce the variable-length quantity of
    its argument: a value of one group is encoded correctly
    ([write_varlen(0) = 00], [write_varlen(127) = 7F]), but the groups of a
    longer value come out least significant first, so
    [write_varlen(128) = 00 81] where the format has [81 00], and the
    standard decoder reads the value 0 from it and leaves [81] behind. *)
Theorem write_varlen_examples (fuel : nat) :
  write_varlen fuel 0 = (if (0 <? fuel)%nat then Returned [0] else OutOfFuel) /\
  write_varlen fuel 127 = (if (0 <? fuel)%nat then Returned [127] else OutOfFuel) /\
  write_varlen fuel 128 = (if (1 <? fuel)%nat then Returned [0; 129] else OutOfFuel) /\
  vlq_encode 128 = [129; 0] /\
  vlq_decode [0; 129] = Some (0, [129]) /\
  vlq_decode [129; 0] = Some (128, []).
Proof.
  rewrite !write_varlen_eq. repeat split; reflexivity.
Qed.

(** C2.  The end-to-end scenario, tempo 155 and the single note
    [(0.0, 41, 0.75, 100)]: the file is the 14-byte header, ["MTrk"], the
    length 20, the tempo event [00 FF 51 03 05 E8 18], the Note-On
    [00 90 29 64], the Note-Off [68 82 80 29 00] and the end of track
    [00 FF 2F 00].  The delta time of the Note-Off is [68 82], not the
    variable-length quantity [82 68] of 360. *)
Theorem create_midi_scenario (fuel : nat) :
  create_midi fuel out_mid [(f_lit_0_0, 41, f_lit_0_75, 100)] 155
  = (if (1 <? fuel)%nat
     then Returned (header_chunk ++ MTrk ++ [0; 0; 0; 20]
                    ++ [0; 255; 81; 3; 5; 232; 24]
                    ++ [0; 144; 41; 100]
                    ++ [104; 130] ++ [128; 41; 0]
                    ++ [0; 255; 47; 0])
     else OutOfFuel)
  /\ vlq_encode 360 = [130; 104]
  /\ microseconds_per_beat 155 = Returned 387096
  /\ int_of_float (fmul f_lit_0_75 (float_of_int PPQ)) = Returned 360.
Proof.
  split; [|repeat split; reflexivity].
  destruct fuel as [|[|fuel]]; vm_compute; reflexivity.
Qed.

Lemma Returned_inj {A : Type} (a b : A) : Returned a = Returned b -> a = b.
Proof. intros H. injection H as ->. reflexivity. Qed.

Lemma bind_returned {A B : Type} (m : outcome A) (k : A -> outcome B) (b : B) :
  bind m k = Returned b -> exists a, m = Returned a /\ k a = Returned b.
Proof.
  destruct m as [a| |]; cbn [bind]; intros Hk; try discriminate Hk.
  exists a. split; [reflexivity | exact Hk].
Qed.

Lemma pack_L_returned (v : Z) (bs : bytes) :
  pack_L v = Returned bs -> 0 <= v <= 4294967295 /\ bs = be_bytes 4 v.
Proof.
  unfold pack_L. destruct (Z.leb_spec 0 v); destruct (Z.leb_spec v 4294967295);
    cbn [andb]; intros Hr; try discriminate Hr.
  apply Returned_inj in Hr. split; [lia | symmetry; exact Hr].
Qed.

(** What a successful call has computed. *)
Lemma create_midi_returned (fuel : nat) (filename : String.string)
    (notes : list note) (tempo : Z) (out : bytes) :
  create_midi fuel filename notes tempo = Returned out ->
  exists us events,
    microseconds_per_beat tempo = Returned us /\
    0 <= us <= 4294967295 /\
    create_midi_notes fuel notes (float_of_int 0) [] = Returned events /\
    Z.of_nat (length (set_tempo us ++ events ++ end_of_track)) <= 4294967295 /\
    out = header_chunk ++ MTrk
          ++ be_bytes 4 (Z.of_nat (length (set_tempo us ++ events ++ end_of_track)))
          ++ set_tempo us ++ events ++ end_of_track.
Proof.
  rewrite create_midi_eq. intros H.
  apply bind_returned in H. destruct H as (us & Hus & H1).
  apply bind_returned in H1. destruct H1 as (packed & Hp & H2).
  apply bind_returned in H2. destruct H2 as (events & Hev & H3).
  apply bind_returned in H3. destruct H3 as (len & Hlen & H).
  apply pack_L_returned in Hp. apply pack_L_returned in Hlen.
  destruct Hp as [Hr _]. destruct Hlen as [Hl ->].
  apply Returned_inj in H.
  exists us, events.
  split; [exact Hus|]. split; [exact Hr|]. split; [exact Hev|].
  split; [apply Hl | symmetry; exact H].
Qed.

(** ** One note *)

Lemma create_midi_notes_cons (fuel : nat) (n : note) (notes : list note)
    (last_time : float) :
  create_midi_notes fuel (n :: notes) last_time []
  = (ev <- note_events fuel last_time n ;;
     rest <- create_midi_notes fuel notes (note_end n) [] ;;
     Returned (ev ++ rest)).
Proof.
  destruct n as [[[start pitch] dur] vel].
  cbn [create_midi_notes note_events start_ticks dur_ticks note_end].
  destruct (int_of_float (fmul (fsub start last_time) (float_of_int PPQ)));
    cbn [bind]; try reflexivity.
  destruct (int_of_float (fmul dur (float_of_int PPQ)));
    cbn [bind]; try reflexivity.
  destruct (write_varlen fuel a); cbn [bind]; try reflexivity.
  destruct (bytes_of_ints [pitch; vel]); cbn [bind]; try reflexivity.
  destruct (write_varlen fuel a0); cbn [bind]; try reflexivity.
  destruct (bytes_of_ints [pitch; 0]); cbn [bind]; try reflexivity.
  rewrite create_midi_notes_acc. cbn [app]. reflexivity.
Qed.

Lemma bytes_of_ints_returned (xs : list Z) (bs : bytes) :
  bytes_of_ints xs = Returned bs ->
  bs = xs /\ Forall (fun b => 0 <= b < 256) xs.
Proof.
  unfold bytes_of_ints. destruct (forallb is_byte xs) eqn:Hb; intros Hr;
    [|discriminate Hr].
  apply Returned_inj in Hr. split; [symmetry; exact Hr|].
  apply Forall_forall. intros b Hin. apply is_byte_range.
  rewrite forallb_forall in Hb. auto.
Qed.

Lemma write_varlen_returned (fuel : nat) (value : Z) (bs : bytes) :
  write_varlen fuel value = Returned bs ->
  0 <= value /\ (vlq_size value < fuel)%nat /\ bs = rev (vlq_encode value).
Proof.
  rewrite write_varlen_eq.
  destruct (Z.leb_spec 0 value); destruct (Nat.ltb_spec (vlq_size value) fuel);
    cbn [andb]; intros Hr; try discriminate Hr.
  apply Returned_inj in Hr. auto.
Qed.

(** What one successful iteration has computed. *)
Lemma note_events_returned (fuel : nat) (last_time : float)
    (start pitch dur vel : _) (ev : bytes) :
  note_events fuel last_time (start, pitch, dur, vel) = Returned ev ->
  exists delta_start delta_dur,
    start_ticks last_time (start, pitch, dur, vel) = Returned delta_start /\
    dur_ticks (start, pitch, dur, vel) = Returned delta_dur /\
    0 <= delta_start /\ 0 <= delta_dur /\
    0 <= pitch < 256 /\ 0 <= vel < 256 /\
    write_varlen fuel delta_start = Returned (rev (vlq_encode delta_start)) /\
    write_varlen fuel delta_dur = Returned (rev (vlq_encode delta_dur)) /\
    ev = (rev (vlq_encode delta_start) ++ [144; pitch; vel])
         ++ (rev (vlq_encode delta_dur) ++ [128; pitch; 0]).
Proof.
  unfold note_events. intros H.
  apply bind_returned in H. destruct H as (ds & Hds & H1).
  apply bind_returned in H1. destruct H1 as (dd & Hdd & H2).
  apply bind_returned in H2. destruct H2 as (vl_on & Hon & H3).
  apply bind_returned in H3. destruct H3 as (pv & Hpv & H4).
  apply bind_returned in H4. destruct H4 as (vl_off & Hoff & H5).
  apply bind_returned in H5. destruct H5 as (p0 & Hp0 & H6).
  apply Returned_inj in H6.
  apply bytes_of_ints_returned in Hpv. destruct Hpv as [-> Hpv].
  apply bytes_of_ints_returned in Hp0. destruct Hp0 as [-> _].
  pose proof (write_varlen_returned _ _ _ Hon) as (Hs0 & _ & Hs).
  pose proof (write_varlen_returned _ _ _ Hoff) as (Hd0 & _ & Hd).
  rewrite Hs in Hon. rewrite Hd in Hoff. subst vl_on vl_off.
  inversion Hpv as [|? ? Hp Hv']; subst. inversion Hv' as [|? ? Hv _]; subst.
  exists ds, dd. repeat split; try assumption; try lia.
Qed.

(** ** The loop over the notes *)

Lemma create_midi_notes_returned (fuel : nat) (notes : list note) :
  forall (last_time : float) (events : bytes),
    create_midi_notes fuel notes last_time [] = Returned events ->
    exists evs, encoded_notes fuel last_time notes evs /\ events = concat evs.
Proof.
  induction notes as [|n notes IH]; intros last_time events H.
  - cbn [create_midi_notes] in H. apply Returned_inj in H. subst events.
    exists []. split; [constructor | reflexivity].
  - rewrite create_midi_notes_cons in H.
    apply bind_returned in H. destruct H as (ev & Hev & H1).
    apply bind_returned in H1. destruct H1 as (rest & Hrest & H2).
    apply Returned_inj in H2. subst events.
    destruct (IH _ _ Hrest) as (evs & Henc & ->).
    exists (ev :: evs). split; [constructor; assumption | reflexivity].
Qed.

Lemma encoded_notes_fields (fuel : nat) (last_time : float)
    (notes : list note) (evs : list bytes) :
  encoded_notes fuel last_time notes evs ->
  Forall (fun n => ~ non_byte_fields n) notes /\
  Forall (fun t => ~ negative_ticks t) (start_tick_list last_time notes).
Proof.
  induction 1 as [|last_time n notes ev evs Hev _ [IH1 IH2]];
    cbn [start_tick_list]; [split; constructor|].
  destruct n as [[[start pitch] dur] vel].
  apply note_events_returned in Hev.
  destruct Hev as (ds & dd & Hds & _ & Hs0 & _ & Hp & Hv & _).
  split; constructor; try assumption.
  - cbn. tauto.
  - rewrite Hds. intros (d & Hd & Hneg). apply Returned_inj in Hd. lia.
Qed.

(** A note with a field outside range(256) that the loop reaches with a
    usable start delta makes [bytes([pitch, vel])] raise. *)
Lemma note_events_non_byte (fuel : nat) (last_time : float) (n : note)
    (delta_start delta_dur : Z) :
  start_ticks last_time n = Returned delta_start ->
  dur_ticks n = Returned delta_dur ->
  0 <= delta_start -> (vlq_size delta_start < fuel)%nat ->
  non_byte_fields n ->
  note_events fuel last_time n = Raised ValueError.
Proof.
  destruct n as [[[start pitch] dur] vel]. intros Hs Hd H0 Hf Hbad.
  unfold note_events. rewrite Hs, Hd. cbn [bind].
  rewrite write_varlen_spec by assumption. cbn [bind].
  unfold bytes_of_ints at 1. cbn [forallb].
  replace (is_byte pitch && (is_byte vel && true)) with false; [reflexivity|].
  cbn in Hbad. unfold is_byte. lia.
Qed.

(** A note with a negative start delta stops the loop for good: the first
    loop of [write_varlen] does not end. *)
Lemma note_events_negative (fuel : nat) (last_time : float) (n : note)
    (delta_start delta_dur : Z) :
  start_ticks last_time n = Returned delta_start ->
  dur_ticks n = Returned delta_dur ->
  delta_start < 0 ->
  note_events fuel last_time n = OutOfFuel.
Proof.
  destruct n as [[[start pitch] dur] vel]. intros Hs Hd H0.
  unfold note_events. rewrite Hs, Hd. cbn [bind].
  rewrite write_varlen_negative by assumption. reflexivity.
Qed.

Lemma not_returned_false {A : Type} (m : outcome A) :
  (forall a, m <> Returned a) -> is_returned m = false.
Proof. destruct m as [a| |]; intros H; [destruct (H a eq_refl) | |]; reflexivity. Qed.

(** C9.  In the file of a successful call, ["MTrk"] follows the 14-byte
    header and the four bytes after it hold, big-endian, the exact number
    of bytes that follow them. *)
Theorem track_length_field (fuel : nat) (filename : String.string)
    (notes : list note) (tempo : Z) (out : bytes) :
  create_midi fuel filename notes tempo = Returned out ->
  exists len_field track_data,
    out = header_chunk ++ MTrk ++ len_field ++ track_data /\
    length header_chunk = 14%nat /\
    length len_field = 4%nat /\
    be_value len_field = Z.of_nat (length track_data) /\
    firstn 4 (skipn 18 out) = len_field /\
    skipn 22 out = track_data.
Proof.
  intros H. apply create_midi_returned in H.
  destruct H as (us & events & _ & _ & _ & Hlen & ->).
  set (track_data := set_tempo us ++ events ++ end_of_track) in *.
  exists (be_bytes 4 (Z.of_nat (length track_data))), track_data.
  split; [reflexivity|]. split; [reflexivity|].
  split; [apply be_bytes_length|]. split.
  - rewrite be_value_bytes. apply Z.mod_small.
    change (256 ^ Z.of_nat 4) with 4294967296. lia.
  - split; reflexivity.
Qed.

Lemma track_length_field_witness :
  create_midi 2 out_mid [(f_lit_0_0, 41, f_lit_0_75, 100)] 155
  = Returned (header_chunk ++ MTrk ++ [0; 0; 0; 20]
              ++ [0; 255; 81; 3; 5; 232; 24; 0; 144; 41; 100;
                  104; 130; 128; 41; 0; 0; 255; 47; 0])
  /\ exists len_field track_data,
       header_chunk ++ MTrk ++ [0; 0; 0; 20]
       ++ [0; 255; 81; 3; 5; 232; 24; 0; 144; 41; 100;
           104; 130; 128; 41; 0; 0; 255; 47; 0]
       = header_chunk ++ MTrk ++ len_field ++ track_data /\
       length header_chunk = 14%nat /\
       length len_field = 4%nat /\
       be_value len_field = Z.of_nat (length track_data) /\
       firstn 4 (skipn 18 (header_chunk ++ MTrk ++ [0; 0; 0; 20]
         ++ [0; 255; 81; 3; 5; 232; 24; 0; 144; 41; 100;
             104; 130; 128; 41; 0; 0; 255; 47; 0])) = len_field /\
       skipn 22 (header_chunk ++ MTrk ++ [0; 0; 0; 20]
         ++ [0; 255; 81; 3; 5; 232; 24; 0; 144; 41; 100;
             104; 130; 128; 41; 0; 0; 255; 47; 0]) = track_data.
Proof.
  split; [vm_compute; reflexivity|].
  apply (track_length_field 2 out_mid [(f_lit_0_0, 41, f_lit_0_75, 100)] 155).
  vm_compute. reflexivity.
Defined.

(** With no notes the loop appends nothing. *)
Lemma create_midi_no_notes (fuel : nat) (filename : String.string)
    (tempo us : Z) :
  microseconds_per_beat tempo = Returned us ->
  0 <= us <= 4294967295 ->
  create_midi fuel filename [] tempo
  = Returned (header_chunk ++ MTrk ++ [0; 0; 0; 11]
              ++ set_tempo us ++ end_of_track).
Proof.
  intros Hus Hr.
  rewrite create_midi_eq, Hus. cbn [bind create_midi_notes].
  unfold pack_L at 1.
  replace ((0 <=? us) && (us <=? 4294967295)) with true by lia.
  reflexivity.
Qed.

(** C10.  With no notes, and a tempo whose truncated microsecond value
    fits in three bytes, the call succeeds for every fuel and writes 33
    bytes: the header, ["MTrk"], the length 11, the seven bytes of the tempo
    event and the four bytes of the end of track. *)
Theorem create_midi_empty (fuel : nat) (filename : String.string)
    (tempo us : Z) :
  microseconds_per_beat tempo = Returned us ->
  0 <= us < 2 ^ 24 ->
  create_midi fuel filename [] tempo
  = Returned (header_chunk ++ MTrk ++ [0; 0; 0; 11]
              ++ set_tempo us ++ end_of_track)
  /\ length (header_chunk ++ MTrk ++ [0; 0; 0; 11]
             ++ set_tempo us ++ end_of_track) = 33%nat
  /\ length (set_tempo us) = 7%nat
  /\ be_value (be_bytes 3 us) = us.
Proof.
  intros Hus Hr. change (2 ^ 24) with 16777216 in Hr.
  rewrite (create_midi_no_notes fuel filename tempo us Hus) by lia.
  repeat split.
  rewrite be_value_bytes. apply Z.mod_small.
  change (256 ^ Z.of_nat 3) with 16777216. lia.
Qed.

Lemma create_midi_empty_witness :
  microseconds_per_beat 155 = Returned 387096 /\
  0 <= 387096 < 2 ^ 24 /\
  create_midi 0 out_mid [] 155
  = Returned (header_chunk ++ MTrk ++ [0; 0; 0; 11]
              ++ set_tempo 387096 ++ end_of_track).
Proof.
  split; [vm_compute; reflexivity|]. split; [vm_compute; intuition discriminate|].
  apply (create_midi_empty 0 out_mid 155 387096);
    [vm_compute; reflexivity | vm_compute; intuition discriminate].
Defined.

(** A successful call has met no field outside range(256) and no
    negative start delta. *)
Lemma create_midi_returned_notes (fuel : nat) (filename : String.string)
    (notes : list note) (tempo : Z) (out : bytes) :
  create_midi fuel filename notes tempo = Returned out ->
  Forall (fun n => ~ non_byte_fields n) notes /\
  Forall (fun t => ~ negative_ticks t) (start_tick_list (float_of_int 0) notes).
Proof.
  intros H. apply create_midi_returned in H.
  destruct H as (us & events & _ & _ & Hev & _).
  apply create_midi_notes_returned in Hev. destruct Hev as (evs & Henc & _).
  eapply encoded_notes_fields. exact Henc.
Qed.

(** C3, as stated, fails: a pitch of 128 is not rejected, it is written
    into the Note-On and the Note-Off. *)
Lemma pitch_128_is_encoded :
  create_midi 2 out_mid [(f_lit_0_0, 128, f_lit_1_0, 100)] 155
  = Returned (header_chunk ++ MTrk ++ [0; 0; 0; 20]
              ++ set_tempo 387096
              ++ [0; 144; 128; 100] ++ [96; 131; 128; 128; 0]
              ++ end_of_track).
Proof. vm_compute. reflexivity. Qed.

(** With usable ticks and enough fuel, the loop stops at the first note
    with a field outside range(256), on the [ValueError] of [bytes]. *)
Lemma create_midi_notes_value_error (fuel : nat) (notes : list note) :
  forall last_time,
    Forall valid_ticks (start_tick_list last_time notes) ->
    Forall (fun n => valid_ticks (dur_ticks n)) notes ->
    (fuel_needed last_time notes <= fuel)%nat ->
    Exists non_byte_fields notes ->
    create_midi_notes fuel notes last_time [] = Raised ValueError.
Proof.
  induction notes as [|n notes IH]; intros last_time Hs Hd Hf Hex;
    [inversion Hex|].
  cbn [start_tick_list fuel_needed] in Hs, Hf.
  inversion Hs as [|? ? (ds & Hds & Hds0) Hs']; subst.
  inversion Hd as [|? ? (dd & Hdd & Hdd0) Hd']; subst.
  rewrite Hds, Hdd in Hf. cbn [ticks_fuel] in Hf.
  rewrite create_midi_notes_cons.
  destruct n as [[[start pitch] dur] vel].
  destruct (is_byte pitch && is_byte vel) eqn:Hb.
  - assert (Hok : 0 <= pitch < 256 /\ 0 <= vel < 256)
      by (unfold is_byte in Hb; lia).
    unfold note_events. rewrite Hds, Hdd. cbn [bind].
    rewrite write_varlen_spec by lia. cbn [bind].
    rewrite (forallb_is_byte [pitch; vel]) by (repeat constructor; lia).
    cbn [bind]. rewrite write_varlen_spec by lia. cbn [bind].
    rewrite (forallb_is_byte [pitch; 0]) by (repeat constructor; lia).
    cbn [bind].
    rewrite (IH (note_end (start, pitch, dur, vel))); try assumption;
      [reflexivity | lia |].
    inversion Hex as [? ? Hbad|? ? Htl]; subst; [|exact Htl].
    cbn in Hbad. tauto.
  - rewrite (note_events_non_byte fuel last_time _ ds dd Hds Hdd);
      [reflexivity | lia | lia |].
    cbn. unfold is_byte in Hb. lia.
Qed.

(** C3, amended.  A call whose notes include a pitch or a velocity
    outside [0, 255] writes no file; when the tempo is positive, the start
    deltas and the durations are non-negative numbers of ticks and the fuel
    suffices for them, it fails with the [ValueError] of [bytes]. *)
Theorem create_midi_rejects_non_bytes (fuel : nat) (filename : String.string)
    (notes : list note) (tempo : Z) :
  Exists non_byte_fields notes ->
  is_returned (create_midi fuel filename notes tempo) = false /\
  (0 < tempo ->
   Forall valid_ticks (start_tick_list (float_of_int 0) notes) ->
   Forall (fun n => valid_ticks (dur_ticks n)) notes ->
   (fuel_needed (float_of_int 0) notes <= fuel)%nat ->
   create_midi fuel filename notes tempo = Raised ValueError).
Proof.
  intros Hex. split.
  - apply not_returned_false. intros out H.
    apply create_midi_returned_notes in H. destruct H as [Hf _].
    apply Exists_exists in Hex. destruct Hex as (n & Hin & Hbad).
    rewrite Forall_forall in Hf. exact (Hf n Hin Hbad).
  - intros Ht Hs Hd Hfuel.
    rewrite create_midi_eq, microseconds_per_beat_quot by lia. cbn [bind].
    unfold pack_L at 1.
    replace ((0 <=? 60000000 ÷ tempo) && (60000000 ÷ tempo <=? 4294967295))
      with true.
    + cbn [bind].
      rewrite (create_midi_notes_value_error fuel notes _ Hs Hd Hfuel Hex).
      reflexivity.
    + rewrite Z.quot_div_nonneg by lia.
      assert (0 <= 60000000 / tempo) by (apply Z.div_pos; lia).
      assert (60000000 / tempo <= 60000000)
        by (apply Z.div_le_upper_bound; nia).
      lia.
Qed.

Lemma create_midi_rejects_non_bytes_witness :
  Exists non_byte_fields [(f_lit_0_0, 256, f_lit_1_0, 100)] /\
  is_returned (create_midi 2 out_mid [(f_lit_0_0, 256, f_lit_1_0, 100)] 155)
  = false /\
  create_midi 2 out_mid [(f_lit_0_0, 256, f_lit_1_0, 100)] 155
  = Raised ValueError.
Proof.
  assert (H : Exists non_byte_fields [(f_lit_0_0, 256, f_lit_1_0, 100)]).
  { apply Exists_cons_hd. cbn. lia. }
  split; [exact H|].
  split; [apply (create_midi_rejects_non_bytes 2 out_mid _ 155 H)|].
  apply (create_midi_rejects_non_bytes 2 out_mid _ 155 H).
  - reflexivity.
  - apply Forall_cons; [|apply Forall_nil]. exists 0. split; [reflexivity|].
    discriminate.
  - apply Forall_cons; [|apply Forall_nil]. exists 480. split; [reflexivity|].
    discriminate.
  - apply Nat.le_refl.
Defined.

(** With usable ticks and byte fields, one iteration either returns or is
    out of fuel: it does not raise. *)
Lemma note_events_no_raise (fuel : nat) (last_time : float) (n : note)
    (delta_start delta_dur : Z) :
  start_ticks last_time n = Returned delta_start ->
  dur_ticks n = Returned delta_dur ->
  ~ non_byte_fields n ->
  note_events fuel last_time n = OutOfFuel \/
  exists ev, note_events fuel last_time n = Returned ev.
Proof.
  destruct n as [[[start pitch] dur] vel]. intros Hs Hd Hok.
  unfold note_events. rewrite Hs, Hd. cbn [bind].
  rewrite !write_varlen_eq.
  destruct ((0 <=? delta_start) && (vlq_size delta_start <? fuel)%nat);
    cbn [bind]; [|left; reflexivity].
  rewrite (forallb_is_byte [pitch; vel]).
  - cbn [bind].
    destruct ((0 <=? delta_dur) && (vlq_size delta_dur <? fuel)%nat);
      cbn [bind]; [|left; reflexivity].
    rewrite (forallb_is_byte [pitch; 0]).
    + cbn [bind]. right. eexists. reflexivity.
    + cbn in Hok. repeat constructor; lia.
  - cbn in Hok. repeat constructor; lia.
Qed.

(** When the second of two notes has a negative start delta, and the call
    gets as far as that note, it is out of fuel whatever the fuel. *)
Lemma create_midi_second_negative (filename : String.string) (n1 n2 : note)
    (tempo us d1 dd1 delta_start delta_dur : Z) :
  microseconds_per_beat tempo = Returned us ->
  0 <= us <= 4294967295 ->
  start_ticks (float_of_int 0) n1 = Returned d1 ->
  dur_ticks n1 = Returned dd1 ->
  ~ non_byte_fields n1 ->
  start_ticks (note_end n1) n2 = Returned delta_start ->
  dur_ticks n2 = Returned delta_dur ->
  delta_start < 0 ->
  forall fuel, create_midi fuel filename [n1; n2] tempo = OutOfFuel.
Proof.
  intros Hus Hr Hs1 Hd1 Hok Hs Hd Hneg fuel.
  rewrite create_midi_eq, Hus. cbn [bind].
  unfold pack_L at 1.
  replace ((0 <=? us) && (us <=? 4294967295)) with true by lia.
  cbn [bind]. rewrite create_midi_notes_cons.
  destruct (note_events_no_raise fuel _ n1 _ _ Hs1 Hd1 Hok) as [->|[ev ->]];
    cbn [bind]; [reflexivity|].
  rewrite create_midi_notes_cons.
  rewrite (note_events_negative fuel _ n2 _ _ Hs Hd Hneg). reflexivity.
Qed.

Lemma unordered_notes_out_of_fuel (fuel : nat) :
  create_midi fuel out_mid unordered_notes 155 = OutOfFuel.
Proof.
  revert fuel.
  apply (create_midi_second_negative out_mid
           (f_lit_1_0, 60, f_lit_1_0, 100) (f_lit_0_0, 62, f_lit_1_0, 100)
           155 387096 480 480 (-960) 480).
  - vm_compute; reflexivity.
  - lia.
  - vm_compute; reflexivity.
  - vm_compute; reflexivity.
  - cbn. lia.
  - vm_compute; reflexivity.
  - vm_compute; reflexivity.
  - lia.
Qed.

(** C4, as stated, fails: on two notes out of order, the second with a
    start delta of -960 ticks, the call raises no error, whatever the
    fuel: it never finishes. *)
Lemma unordered_notes_not_rejected :
  start_tick_list (float_of_int 0) unordered_notes
  = [Returned 480; Returned (-960)] /\
  ~ (exists fuel e, create_midi fuel out_mid unordered_notes 155 = Raised e).
Proof.
  split; [vm_compute; reflexivity|].
  intros (fuel & e & H). rewrite unordered_notes_out_of_fuel in H.
  discriminate H.
Qed.

(** C4, amended.  When the start delta of some note, truncated to ticks,
    is negative, the call writes no file. *)
Theorem create_midi_negative_start (fuel : nat) (filename : String.string)
    (notes : list note) (tempo : Z) :
  Exists negative_ticks (start_tick_list (float_of_int 0) notes) ->
  is_returned (create_midi fuel filename notes tempo) = false.
Proof.
  intros Hex. apply not_returned_false. intros out H.
  apply create_midi_returned_notes in H. destruct H as [_ Hf].
  apply Exists_exists in Hex. destruct Hex as (t & Hin & Hneg).
  rewrite Forall_forall in Hf. exact (Hf t Hin Hneg).
Qed.

Lemma create_midi_negative_start_witness :
  Exists negative_ticks (start_tick_list (float_of_int 0) unordered_notes) /\
  is_returned (create_midi 2 out_mid unordered_notes 155) = false.
Proof.
  assert (H : Exists negative_ticks
                (start_tick_list (float_of_int 0) unordered_notes)).
  { apply Exists_cons_tl, Exists_cons_hd. exists (-960).
    split; [vm_compute; reflexivity | reflexivity]. }
  split; [exact H|].
  exact (create_midi_negative_start 2 out_mid unordered_notes 155 H).
Defined.

Lemma overlapping_notes_out_of_fuel (fuel : nat) :
  create_midi fuel out_mid overlapping_notes 155 = OutOfFuel.
Proof.
  revert fuel.
  apply (create_midi_second_negative out_mid
           (f_lit_0_0, 60, f_lit_1_0, 100) (f_lit_0_5, 62, f_lit_1_0, 100)
           155 387096 0 480 (-240) 480); try reflexivity.
  - lia.
  - cbn. lia.
Qed.

(** C5, as stated, fails: on two overlapping notes, the second with a
    start delta of -240 ticks, no fuel lets the call finish. *)
Lemma overlapping_notes_diverge :
  start_tick_list (float_of_int 0) overlapping_notes
  = [Returned 0; Returned (-240)] /\
  ~ (exists fuel,
       terminates (create_midi fuel out_mid overlapping_notes 155) = true).
Proof.
  split; [vm_compute; reflexivity|].
  intros (fuel & H). rewrite overlapping_notes_out_of_fuel in H.
  discriminate H.
Qed.

(** ** Termination *)

Lemma write_varlen_enough (fuel : nat) (d : Z) :
  0 <= d -> (ticks_fuel (Returned d) <= fuel)%nat ->
  write_varlen fuel d = Returned (rev (vlq_encode d)).
Proof. cbn [ticks_fuel]. intros H0 Hf. apply write_varlen_spec; lia. Qed.

Lemma bytes_of_ints_cases (xs : list Z) :
  bytes_of_ints xs = Returned xs \/ bytes_of_ints xs = Raised ValueError.
Proof. unfold bytes_of_ints. destruct (forallb is_byte xs); auto. Qed.

Lemma pack_L_cases (v : Z) :
  pack_L v = Returned (be_bytes 4 v) \/ pack_L v = Raised StructError.
Proof.
  unfold pack_L. destruct ((0 <=? v) && (v <=? 4294967295)); auto.
Qed.

Lemma int_of_float_terminates (x : float) : terminates (int_of_float x) = true.
Proof. destruct x; reflexivity. Qed.

Lemma start_ticks_terminates (last_time : float) (n : note) :
  terminates (start_ticks last_time n) = true.
Proof. destruct n as [[[start pitch] dur] vel]. apply int_of_float_terminates. Qed.

Lemma dur_ticks_terminates (n : note) : terminates (dur_ticks n) = true.
Proof. destruct n as [[[start pitch] dur] vel]. apply int_of_float_terminates. Qed.

Lemma microseconds_per_beat_terminates (tempo : Z) :
  terminates (microseconds_per_beat tempo) = true.
Proof.
  unfold microseconds_per_beat, int_true_div.
  destruct (tempo =? 0); cbn [bind]; [reflexivity|].
  apply int_of_float_terminates.
Qed.

Lemma note_events_stable (f1 f2 : nat) (last_time : float) (n : note) :
  nonneg_ticks (start_ticks last_time n) ->
  nonneg_ticks (dur_ticks n) ->
  (ticks_fuel (start_ticks last_time n) <= f1)%nat ->
  (ticks_fuel (dur_ticks n) <= f1)%nat ->
  (ticks_fuel (start_ticks last_time n) <= f2)%nat ->
  (ticks_fuel (dur_ticks n) <= f2)%nat ->
  note_events f1 last_time n = note_events f2 last_time n /\
  terminates (note_events f1 last_time n) = true.
Proof.
  destruct n as [[[start pitch] dur] vel]. unfold note_events.
  intros Hs Hd Hs1 Hd1 Hs2 Hd2.
  pose proof (start_ticks_terminates last_time (start, pitch, dur, vel)) as Hts.
  pose proof (dur_ticks_terminates (start, pitch, dur, vel)) as Htd.
  destruct (start_ticks last_time (start, pitch, dur, vel)) as [ds| |];
    cbn [bind]; try (split; reflexivity); try discriminate Hts.
  destruct (dur_ticks (start, pitch, dur, vel)) as [dd| |];
    cbn [bind]; try (split; reflexivity); try discriminate Htd.
  rewrite (write_varlen_enough f1), (write_varlen_enough f2)
    by (try apply Hs; auto).
  cbn [bind].
  destruct (bytes_of_ints_cases [pitch; vel]) as [-> | ->]; cbn [bind];
    try (split; reflexivity).
  rewrite (write_varlen_enough f1), (write_varlen_enough f2)
    by (try apply Hd; auto).
  cbn [bind].
  destruct (bytes_of_ints_cases [pitch; 0]) as [-> | ->]; cbn [bind];
    split; reflexivity.
Qed.

Lemma create_midi_notes_stable (f1 f2 : nat) (notes : list note) :
  forall last_time,
    Forall nonneg_ticks (start_tick_list last_time notes) ->
    Forall (fun n => nonneg_ticks (dur_ticks n)) notes ->
    (fuel_needed last_time notes <= f1)%nat ->
    (fuel_needed last_time notes <= f2)%nat ->
    create_midi_notes f1 notes last_time [] = create_midi_notes f2 notes last_time [] /\
    terminates (create_midi_notes f1 notes last_time []) = true.
Proof.
  induction notes as [|n notes IH]; intros last_time Hs Hd Hf1 Hf2.
  - split; reflexivity.
  - cbn [start_tick_list fuel_needed] in *.
    inversion Hs as [|? ? Hs0 Hs']; subst. inversion Hd as [|? ? Hd0 Hd']; subst.
    rewrite !create_midi_notes_cons.
    destruct (note_events_stable f1 f2 last_time n Hs0 Hd0) as [He Ht]; try lia.
    rewrite <- He.
    destruct (note_events f1 last_time n) as [ev| |]; cbn [bind];
      try (split; [reflexivity | exact Ht]).
    destruct (IH (note_end n) Hs' Hd') as [Hr Hrt]; try lia.
    rewrite <- Hr.
    destruct (create_midi_notes f1 notes (note_end n) []); cbn [bind];
      split; try reflexivity; exact Hrt.
Qed.

(** C5, amended.  When every start delta and every duration the loop
    computes is a non-negative number of ticks, the call terminates: from
    some fuel on, it returns or raises, and the outcome no longer depends on
    the fuel. *)
Theorem create_midi_terminates (filename : String.string)
    (notes : list note) (tempo : Z) :
  Forall nonneg_ticks (start_tick_list (float_of_int 0) notes) ->
  Forall (fun n => nonneg_ticks (dur_ticks n)) notes ->
  exists N, forall fuel, (N <= fuel)%nat ->
    terminates (create_midi fuel filename notes tempo) = true /\
    create_midi fuel filename notes tempo = create_midi N filename notes tempo.
Proof.
  intros Hs Hd. exists (fuel_needed (float_of_int 0) notes). intros fuel Hf.
  rewrite !create_midi_eq.
  pose proof (microseconds_per_beat_terminates tempo) as Htu.
  destruct (microseconds_per_beat tempo) as [us| |]; cbn [bind];
    try (split; reflexivity); try discriminate Htu.
  destruct (pack_L_cases us) as [-> | ->]; cbn [bind];
    try (split; reflexivity).
  destruct (create_midi_notes_stable fuel (fuel_needed (float_of_int 0) notes)
              notes (float_of_int 0) Hs Hd Hf (Nat.le_refl _)) as [He Ht].
  rewrite <- He.
  destruct (create_midi_notes fuel notes (float_of_int 0) []) as [events| |];
    cbn [bind]; try (split; [exact Ht | reflexivity]).
  destruct (pack_L_cases
              (Z.of_nat (length (set_tempo us ++ events ++ end_of_track))))
    as [-> | ->]; cbn [bind]; split; reflexivity.
Qed.

Lemma create_midi_terminates_witness :
  Forall nonneg_ticks
    (start_tick_list (float_of_int 0) [(f_lit_0_0, 41, f_lit_0_75, 100)]) /\
  Forall (fun n => nonneg_ticks (dur_ticks n)) [(f_lit_0_0, 41, f_lit_0_75, 100)] /\
  exists N, forall fuel, (N <= fuel)%nat ->
    terminates (create_midi fuel out_mid [(f_lit_0_0, 41, f_lit_0_75, 100)] 155)
    = true /\
    create_midi fuel out_mid [(f_lit_0_0, 41, f_lit_0_75, 100)] 155
    = create_midi N out_mid [(f_lit_0_0, 41, f_lit_0_75, 100)] 155.
Proof.
  assert (H1 : Forall nonneg_ticks
    (start_tick_list (float_of_int 0) [(f_lit_0_0, 41, f_lit_0_75, 100)])).
  { apply Forall_cons; [|apply Forall_nil]. intros d Hd.
    apply (Returned_inj 0 d) in Hd. subst d. discriminate. }
  assert (H2 : Forall (fun n => nonneg_ticks (dur_ticks n))
                 [(f_lit_0_0, 41, f_lit_0_75, 100)]).
  { apply Forall_cons; [|apply Forall_nil]. intros d Hd.
    apply (Returned_inj 360 d) in Hd. subst d. discriminate. }
  split; [exact H1|]. split; [exact H2|].
  exact (create_midi_terminates out_mid _ 155 H1 H2).
Defined.

(** ** The tempo *)

(** C7, as stated, fails: at 3 beats per minute the microsecond value,
    20000000, needs four bytes, and the call succeeds; the tempo event
    holds the three low bytes [31 2D 00].  A tempo below -60000000 is
    accepted too: its microsecond value truncates to 0. *)
Lemma tempo_3_is_accepted :
  microseconds_per_beat 3 = Returned 20000000 /\
  2 ^ 24 <= 20000000 /\
  create_midi 0 out_mid [] 3
  = Returned (header_chunk ++ MTrk ++ [0; 0; 0; 11]
              ++ [0; 255; 81; 3; 49; 45; 0] ++ end_of_track) /\
  create_midi 0 out_mid [] (-60000001)
  = Returned (header_chunk ++ MTrk ++ [0; 0; 0; 11]
              ++ [0; 255; 81; 3; 0; 0; 0] ++ end_of_track).
Proof.
  split; [vm_compute; reflexivity|]. split; [vm_compute; discriminate|].
  split; vm_compute; reflexivity.
Qed.

(** C7, amended.  The tempo makes the call fail in two cases: at 0, with
    [ZeroDivisionError], and from -60000000 to -1, where the microsecond
    value is negative and [pack] raises [struct.error].  Every other tempo
    is accepted: with no notes the call succeeds. *)
Theorem create_midi_tempo_errors (fuel : nat) (filename : String.string)
    (notes : list note) (tempo : Z) :
  (tempo = 0 ->
   create_midi fuel filename notes tempo = Raised ZeroDivisionError) /\
  (-60000000 <= tempo < 0 ->
   create_midi fuel filename notes tempo = Raised StructError) /\
  (0 < tempo \/ tempo < -60000000 ->
   create_midi fuel filename [] tempo
   = Returned (header_chunk ++ MTrk ++ [0; 0; 0; 11]
               ++ set_tempo (60000000 ÷ tempo) ++ end_of_track)).
Proof.
  split; [|split].
  - intros ->. rewrite create_midi_eq. reflexivity.
  - intros Ht. rewrite create_midi_eq, microseconds_per_beat_quot by lia.
    cbn [bind]. unfold pack_L at 1.
    replace ((0 <=? 60000000 ÷ tempo) && (60000000 ÷ tempo <=? 4294967295))
      with false; [reflexivity|].
    replace tempo with (- - tempo) by lia.
    rewrite Z.quot_opp_r, Z.quot_div_nonneg by lia.
    assert (1 <= 60000000 / - tempo) by (apply Z.div_le_lower_bound; lia).
    lia.
  - intros Ht. apply create_midi_no_notes.
    + apply microseconds_per_beat_quot. lia.
    + destruct Ht as [Ht|Ht].
      * rewrite Z.quot_div_nonneg by lia.
        assert (0 <= 60000000 / tempo) by (apply Z.div_pos; lia).
        assert (60000000 / tempo <= 60000000)
          by (apply Z.div_le_upper_bound; nia).
        lia.
      * replace tempo with (- - tempo) by lia.
        rewrite Z.quot_opp_r, Z.quot_small by lia. cbn. lia.
Qed.

Lemma create_midi_tempo_errors_witness :
  create_midi 2 out_mid [] 0 = Raised ZeroDivisionError /\
  -60000000 <= -155 < 0 /\
  create_midi 2 out_mid [] (-155) = Raised StructError /\
  (0 < 3 \/ 3 < -60000000) /\
  create_midi 2 out_mid [] 3
  = Returned (header_chunk ++ MTrk ++ [0; 0; 0; 11]
              ++ set_tempo (60000000 ÷ 3) ++ end_of_track).
Proof.
  assert (H1 : -60000000 <= -155 < 0) by lia.
  assert (H2 : 0 < 3 \/ 3 < -60000000) by (left; lia).
  split; [apply (create_midi_tempo_errors 2 out_mid [] 0); reflexivity|].
  split; [exact H1|].
  split; [apply (create_midi_tempo_errors 2 out_mid [] (-155)); exact H1|].
  split; [exact H2|].
  apply (create_midi_tempo_errors 2 out_mid [] 3). exact H2.
Defined.

(** Where the track data starts in the file. *)
Lemma skipn_22_file (len_field track_data : bytes) :
  length len_field = 4%nat ->
  skipn 22 (header_chunk ++ MTrk ++ len_field ++ track_data) = track_data.
Proof.
  destruct len_field as [|a [|b [|c [|d [|? ?]]]]]; try discriminate.
  reflexivity.
Qed.

(** The microsecond value passes the range check of [pack('>L', ...)]
    exactly for a positive tempo and for a tempo below -60000000. *)
Lemma quot_60000000_nonneg (tempo : Z) :
  tempo <> 0 ->
  (0 <= 60000000 ÷ tempo <= 4294967295 <-> 0 < tempo \/ tempo < -60000000).
Proof.
  intros Hne. split.
  - intros Hq.
    destruct (Z.lt_ge_cases 0 tempo) as [Hpos|Hneg]; [left; exact Hpos|].
    destruct (Z.lt_ge_cases tempo (-60000000)) as [Hlow|Hmid];
      [right; exact Hlow|].
    exfalso. revert Hq. replace tempo with (- - tempo) by lia.
    rewrite Z.quot_opp_r, Z.quot_div_nonneg by lia.
    assert (1 <= 60000000 / - tempo) by (apply Z.div_le_lower_bound; lia).
    lia.
  - intros [Ht|Ht].
    + rewrite Z.quot_div_nonneg by lia.
      assert (0 <= 60000000 / tempo) by (apply Z.div_pos; lia).
      assert (60000000 / tempo <= 60000000)
        by (apply Z.div_le_upper_bound; nia).
      lia.
    + replace tempo with (- - tempo) by lia.
      rewrite Z.quot_opp_r, Z.quot_small by lia. cbn. lia.
Qed.

(** C6, as stated, fails: the value is not always packed into the three
    bytes.  At 1 beat per minute the call succeeds, the value is 60000000,
    four bytes [03 93 87 00], and the tempo event holds the low three,
    [93 87 00], which read 9668352; at 3 beats per minute the value is
    20000000 and the three bytes read 3222784. *)
Lemma tempo_value_loses_top_byte :
  microseconds_per_beat 1 = Returned 60000000 /\
  create_midi 0 out_mid [] 1
  = Returned (header_chunk ++ MTrk ++ [0; 0; 0; 11]
              ++ [0; 255; 81; 3; 147; 135; 0] ++ end_of_track) /\
  be_value [147; 135; 0] = 9668352 /\
  be_value [147; 135; 0] <> 60000000 /\
  microseconds_per_beat 3 = Returned 20000000 /\
  create_midi 0 out_mid [] 3
  = Returned (header_chunk ++ MTrk ++ [0; 0; 0; 11]
              ++ [0; 255; 81; 3; 49; 45; 0] ++ end_of_track) /\
  be_value [49; 45; 0] = 3222784 /\
  be_value [49; 45; 0] <> 20000000.
Proof.
  split; [vm_compute; reflexivity|]. split; [vm_compute; reflexivity|].
  split; [vm_compute; reflexivity|]. split; [vm_compute; discriminate|].
  split; [vm_compute; reflexivity|]. split; [vm_compute; reflexivity|].
  split; [vm_compute; reflexivity | vm_compute; discriminate].
Qed.

(** C6, amended.  In the file of a successful call the tempo is not zero,
    the microsecond value is 60000000 / tempo truncated towards zero, and
    the track data opens with [00 FF 51 03] and three bytes: the
    big-endian digits of the low 24 bits of the value.  The three bytes
    hold the value itself exactly when the tempo is 4 or more, or below
    -60000000 (value 0); at 1, 2 and 3 beats per minute the top byte of
    the value is lost.  At 155 beats per minute the value is 387096, the
    bytes [05 E8 18]. *)
Theorem tempo_meta_event (fuel : nat) (filename : String.string)
    (notes : list note) (tempo : Z) (out : bytes) :
  create_midi fuel filename notes tempo = Returned out ->
  tempo <> 0 /\
  microseconds_per_beat tempo = Returned (60000000 ÷ tempo) /\
  firstn 7 (skipn 22 out) = [0; 255; 81; 3] ++ be_bytes 3 (60000000 ÷ tempo) /\
  length (be_bytes 3 (60000000 ÷ tempo)) = 3%nat /\
  be_value (be_bytes 3 (60000000 ÷ tempo)) = (60000000 ÷ tempo) mod 2 ^ 24 /\
  (be_value (be_bytes 3 (60000000 ÷ tempo)) = 60000000 ÷ tempo
   <-> 4 <= tempo \/ tempo < -60000000) /\
  microseconds_per_beat 155 = Returned 387096 /\
  be_bytes 3 387096 = [5; 232; 24].
Proof.
  intros H. apply create_midi_returned in H.
  destruct H as (us & events & Hus & Hr & _ & _ & ->).
  assert (Ht : tempo <> 0).
  { intros ->. discriminate Hus. }
  rewrite microseconds_per_beat_quot in Hus by exact Ht.
  apply Returned_inj in Hus. subst us.
  apply quot_60000000_nonneg in Hr; [|exact Ht].
  split; [exact Ht|]. split; [apply microseconds_per_beat_quot; exact Ht|].
  split.
  { rewrite skipn_22_file by apply be_bytes_length.
    generalize (60000000 ÷ tempo). intros us. reflexivity. }
  split; [apply be_bytes_length|].
  split; [apply be_value_bytes|].
  split; [|split; reflexivity].
  rewrite be_value_bytes. change (256 ^ Z.of_nat 3) with 16777216.
  split.
  - intros Heq.
    destruct Hr as [Hpos|Hlow]; [left | right; exact Hlow].
    destruct (Z.lt_ge_cases tempo 4) as [Hlt|Hge]; [exfalso | exact Hge].
    pose proof (Z.mod_pos_bound (60000000 ÷ tempo) 16777216 eq_refl) as Hm.
    rewrite Heq in Hm. revert Hm.
    rewrite Z.quot_div_nonneg by lia.
    assert (20000000 <= 60000000 / tempo)
      by (apply Z.div_le_lower_bound; lia).
    lia.
  - intros [H4|Hlow].
    + apply Z.mod_small.
      rewrite Z.quot_div_nonneg by lia.
      assert (0 <= 60000000 / tempo) by (apply Z.div_pos; lia).
      assert (60000000 / tempo < 16777216)
        by (apply Z.div_lt_upper_bound; lia).
      lia.
    + replace tempo with (- - tempo) by lia.
      rewrite Z.quot_opp_r, Z.quot_small by lia. reflexivity.
Qed.

Lemma tempo_meta_event_witness :
  create_midi 2 out_mid [(f_lit_0_0, 41, f_lit_0_75, 100)] 155
  = Returned (header_chunk ++ MTrk ++ [0; 0; 0; 20]
              ++ [0; 255; 81; 3; 5; 232; 24; 0; 144; 41; 100;
                  104; 130; 128; 41; 0; 0; 255; 47; 0]) /\
  microseconds_per_beat 155 = Returned (60000000 ÷ 155) /\
  firstn 7 (skipn 22 (header_chunk ++ MTrk ++ [0; 0; 0; 20]
              ++ [0; 255; 81; 3; 5; 232; 24; 0; 144; 41; 100;
                  104; 130; 128; 41; 0; 0; 255; 47; 0]))
  = [0; 255; 81; 3] ++ be_bytes 3 (60000000 ÷ 155).
Proof.
  assert (H : create_midi 2 out_mid [(f_lit_0_0, 41, f_lit_0_75, 100)] 155
              = Returned (header_chunk ++ MTrk ++ [0; 0; 0; 20]
                          ++ [0; 255; 81; 3; 5; 232; 24; 0; 144; 41; 100;
                              104; 130; 128; 41; 0; 0; 255; 47; 0]))
    by (vm_compute; reflexivity).
  split; [exact H|].
  split; apply (tempo_meta_event 2 out_mid _ 155 _ H).
Defined.

(** ** Note pairing *)

Lemma vlq_encode_small (v : Z) : 0 <= v < 128 -> vlq_encode v = [v].
Proof.
  intros Hv. unfold vlq_encode, vlq_size.
  replace (Z.log2 v / 7) with 0.
  - cbn [Z.to_nat vlq_cont app]. f_equal.
    change 127 with (Z.ones 7). rewrite Z.land_ones by lia.
    apply Z.mod_small. exact Hv.
  - symmetry. apply Z.div_small. split; [apply Z.log2_nonneg|].
    destruct (Z.eq_dec v 0) as [->|]; [cbn; lia|].
    apply Z.log2_lt_pow2; [lia|]. exact (proj2 Hv).
Qed.

Lemma encoded_notes_pairs (fuel : nat) (last_time : float)
    (notes : list note) (evs : list bytes) :
  encoded_notes fuel last_time notes evs -> Forall2 (note_pair fuel) notes evs.
Proof.
  induction 1 as [|last_time n notes ev evs Hev _ IH]; constructor; [|exact IH].
  destruct n as [[[start pitch] dur] vel].
  apply note_events_returned in Hev.
  destruct Hev as (ds & dd & _ & Hdd & _ & Hd0 & _ & _ & Hon & Hoff & ->).
  exists ds, dd, (rev (vlq_encode ds)), (rev (vlq_encode dd)).
  split; [exact Hdd|]. split; [exact Hd0|]. split; [exact Hon|].
  split; [exact Hoff|]. split.
  - intros Hs. rewrite vlq_encode_small by lia. reflexivity.
  - cbn [note_pitch note_vel]. rewrite <- !app_assoc. reflexivity.
Qed.

(** C8, as stated, fails: a duration of 1/512 beat is 0.9375 tick, which
    rounds to 1 and truncates to 0; the delta time of the Note-Off is the
    byte [00], not the quantity [01] of the rounded duration. *)
Lemma short_note_not_rounded :
  spec_round (fmul (float_lit 1 (-9)) (float_of_int PPQ)) = Returned 1 /\
  dur_ticks (f_lit_0_0, 60, float_lit 1 (-9), 100) = Returned 0 /\
  vlq_encode 1 = [1] /\
  create_midi 1 out_mid [(f_lit_0_0, 60, float_lit 1 (-9), 100)] 155
  = Returned (header_chunk ++ MTrk ++ [0; 0; 0; 19]
              ++ set_tempo 387096
              ++ [0; 144; 60; 100] ++ [0] ++ [128; 60; 0]
              ++ end_of_track).
Proof. repeat split; vm_compute; reflexivity. Qed.

(** C8, amended.  In the file of a successful call the track data is the
    tempo event, then one byte string per note, in the order of the notes,
    then the end of track; the byte string of a note is one Note-On and one
    Note-Off of the pitch of the note, the Note-On first, and the delta time
    of the Note-Off is what [write_varlen] returns on the duration of the
    note in ticks, truncated towards zero. *)
Theorem note_pairing (fuel : nat) (filename : String.string)
    (notes : list note) (tempo : Z) (out : bytes) :
  create_midi fuel filename notes tempo = Returned out ->
  exists us chunks,
    skipn 22 out = set_tempo us ++ concat chunks ++ end_of_track /\
    Forall2 (note_pair fuel) notes chunks.
Proof.
  intros H. apply create_midi_returned in H.
  destruct H as (us & events & _ & _ & Hev & _ & ->).
  apply create_midi_notes_returned in Hev. destruct Hev as (evs & Henc & ->).
  exists us, evs. split.
  - apply skipn_22_file. apply be_bytes_length.
  - eapply encoded_notes_pairs. exact Henc.
Qed.

Lemma note_pairing_witness :
  create_midi 2 out_mid [(f_lit_0_0, 41, f_lit_0_75, 100)] 155
  = Returned (header_chunk ++ MTrk ++ [0; 0; 0; 20]
              ++ [0; 255; 81; 3; 5; 232; 24; 0; 144; 41; 100;
                  104; 130; 128; 41; 0; 0; 255; 47; 0]) /\
  exists us chunks,
    skipn 22 (header_chunk ++ MTrk ++ [0; 0; 0; 20]
              ++ [0; 255; 81; 3; 5; 232; 24; 0; 144; 41; 100;
                  104; 130; 128; 41; 0; 0; 255; 47; 0])
    = set_tempo us ++ concat chunks ++ end_of_track /\
    Forall2 (note_pair 2) [(f_lit_0_0, 41, f_lit_0_75, 100)] chunks.
Proof.
  assert (H : create_midi 2 out_mid [(f_lit_0_0, 41, f_lit_0_75, 100)] 155
              = Returned (header_chunk ++ MTrk ++ [0; 0; 0; 20]
                          ++ [0; 255; 81; 3; 5; 232; 24; 0; 144; 41; 100;
                              104; 130; 128; 41; 0; 0; 255; 47; 0]))
    by (vm_compute; reflexivity).
  split; [exact H|].
  exact (note_pairing 2 out_mid _ 155 _ H).
Defined.

(** * Further properties of the code *)

(** ** write_varlen *)

(** X1.  Round trip: the bytes [write_varlen] returns, read backwards, are
    the variable-length quantity of the value: the standard decoder reads
    the value from them and consumes them all. *)
Theorem write_varlen_round_trip (fuel : nat) (value : Z) (bs rest : bytes) :
  write_varlen fuel value = Returned bs ->
  vlq_decode (rev bs ++ rest) = Some (value, rest).
Proof.
  intros H. apply write_varlen_returned in H. destruct H as (Hv & _ & ->).
  rewrite rev_involutive. apply vlq_decode_encode. exact Hv.
Qed.

Lemma write_varlen_round_trip_witness :
  write_varlen 2 300 = Returned [44; 130] /\
  vlq_decode (rev [44; 130] ++ [144; 41; 100]) = Some (300, [144; 41; 100]).
Proof.
  assert (H : write_varlen 2 300 = Returned [44; 130]) by reflexivity.
  split; [exact H|].
  exact (write_varlen_round_trip 2 300 [44; 130] [144; 41; 100] H).
Defined.

(** X2.  What a standard reader makes of the bytes as they are written:
    the first byte has its high bit clear, so the reader stops there, with
    the low seven bits of the value, and leaves the other bytes, one per
    further group of the value, to be read as the event. *)
Theorem write_varlen_standard_reader (fuel : nat) (value : Z) (bs rest : bytes) :
  write_varlen fuel value = Returned bs ->
  vlq_decode (bs ++ rest) = Some (value mod 128, tl bs ++ rest) /\
  length (tl bs) = vlq_size value /\
  Forall (fun b => 128 <= b < 256) (tl bs).
Proof.
  intros H. apply write_varlen_returned in H. destruct H as (Hv & _ & ->).
  unfold vlq_encode. rewrite rev_app_distr. cbn [rev app tl].
  split; [|split].
  - unfold vlq_decode. cbn [vlq_decode_from].
    rewrite land_127_low. cbn [Z.eqb]. do 2 f_equal.
    rewrite <- Z.land_assoc. change (Z.land 127 127) with (Z.ones 7).
    rewrite Z.land_ones by lia. reflexivity.
  - rewrite length_rev. apply vlq_cont_length.
  - apply Forall_rev. eapply Forall_impl; [|apply vlq_cont_bytes].
    cbn. intros b Hb. tauto.
Qed.

Lemma write_varlen_standard_reader_witness :
  write_varlen 2 360 = Returned [104; 130] /\
  vlq_decode ([104; 130] ++ [128; 41; 0]) = Some (360 mod 128, tl [104; 130] ++ [128; 41; 0]).
Proof.
  assert (H : write_varlen 2 360 = Returned [104; 130]) by reflexivity.
  split; [exact H|].
  apply (write_varlen_standard_reader 2 360 [104; 130] [128; 41; 0] H).
Defined.

(** X3.  On a negative value [write_varlen] neither returns nor raises,
    whatever the fuel: [value >> 7] never becomes zero. *)
Theorem write_varlen_negative_never_ends (fuel : nat) (value : Z) :
  value < 0 ->
  write_varlen fuel value = OutOfFuel /\
  write_varlen_pack fuel value (Z.land value 127) = OutOfFuel.
Proof.
  intros Hv. split.
  - apply write_varlen_negative. exact Hv.
  - apply write_varlen_pack_negative. exact Hv.
Qed.

Lemma write_varlen_negative_never_ends_witness :
  -1 < 0 /\ write_varlen 1000 (-1) = OutOfFuel.
Proof.
  assert (H : -1 < 0) by reflexivity.
  split; [exact H|].
  apply (write_varlen_negative_never_ends 1000 (-1) H).
Defined.

(** X4.  [write_varlen] never raises, and it returns exactly when the
    value is non-negative and the fuel exceeds the number of 7-bit groups
    above the lowest: on a non-negative value both loops end. *)
Theorem write_varlen_returns_iff (fuel : nat) (value : Z) :
  (forall e, write_varlen fuel value <> Raised e) /\
  is_returned (write_varlen fuel value)
  = (0 <=? value) && (Z.to_nat (Z.log2 value / 7) <? fuel)%nat.
Proof.
  rewrite write_varlen_eq. fold (vlq_size value).
  destruct ((0 <=? value) && (vlq_size value <? fuel)%nat);
    split; try reflexivity; intros e H; discriminate H.
Qed.

(** X5.  The number of bytes returned is the number of 7-bit groups of the
    value: one to four bytes below [2^28], and five or more from [2^28]
    on, which are encoded like any other value. *)
Theorem write_varlen_length (fuel : nat) (value : Z) (bs : bytes) :
  write_varlen fuel value = Returned bs ->
  Z.of_nat (length bs) = Z.log2 value / 7 + 1 /\
  (value < 2 ^ 28 -> (1 <= length bs <= 4)%nat) /\
  (2 ^ 28 <= value -> (5 <= length bs)%nat).
Proof.
  intros H. apply write_varlen_returned in H. destruct H as (Hv & _ & ->).
  assert (Hlen : length (rev (vlq_encode value)) = S (vlq_size value)).
  { rewrite length_rev. unfold vlq_encode.
    rewrite length_app, vlq_cont_length. cbn. lia. }
  pose proof (vlq_size_spec value) as Hs.
  pose proof (Z.log2_nonneg value) as Hl.
  assert (Hq : Z.of_nat (vlq_size value) = Z.log2 value / 7).
  { unfold vlq_size. apply Z2Nat.id. apply Z.div_pos; lia. }
  rewrite Hlen. split; [lia|]. split.
  - intros Hlt.
    assert (Z.log2 value < 28).
    { destruct (Z.eq_dec value 0) as [->|]; [cbn; lia|].
      apply Z.log2_lt_pow2; lia. }
    lia.
  - intros Hge.
    assert (28 <= Z.log2 value).
    { apply Z.log2_le_pow2; [|exact Hge].
      apply Z.lt_le_trans with (2 ^ 28); [reflexivity | exact Hge]. }
    lia.
Qed.

Lemma write_varlen_length_witness :
  write_varlen 5 (2 ^ 28) = Returned [0; 128; 128; 128; 129] /\
  Z.of_nat (length [0; 128; 128; 128; 129]) = Z.log2 (2 ^ 28) / 7 + 1.
Proof.
  assert (H : write_varlen 5 (2 ^ 28) = Returned [0; 128; 128; 128; 129])
    by reflexivity.
  split; [exact H|].
  apply (write_varlen_length 5 (2 ^ 28) _ H).
Defined.

(** X6.  Two values with the same bytes are the same value. *)
Theorem write_varlen_injective (fuel1 fuel2 : nat) (v1 v2 : Z) (bs : bytes) :
  write_varlen fuel1 v1 = Returned bs ->
  write_varlen fuel2 v2 = Returned bs ->
  v1 = v2.
Proof.
  intros H1 H2.
  apply write_varlen_returned in H1. destruct H1 as (Hv1 & _ & E1).
  apply write_varlen_returned in H2. destruct H2 as (Hv2 & _ & E2).
  pose proof (vlq_decode_encode v1 [] Hv1) as D1.
  pose proof (vlq_decode_encode v2 [] Hv2) as D2.
  assert (E : vlq_encode v1 = vlq_encode v2).
  { rewrite <- (rev_involutive (vlq_encode v1)), <- E1, E2.
    apply rev_involutive. }
  rewrite E, D2 in D1. congruence.
Qed.

Lemma write_varlen_injective_witness :
  write_varlen 2 300 = Returned [44; 130] /\ 300 = 300.
Proof.
  assert (H : write_varlen 2 300 = Returned [44; 130]) by reflexivity.
  split; [exact H|].
  exact (write_varlen_injective 2 2 300 300 _ H H).
Defined.

(** ** create_midi *)

(** X7.  The tempo conversion in closed form, for every integer tempo:
    [ZeroDivisionError] at zero, else the quotient truncated towards zero;
    the float division never rounds up to the next integer, never yields
    a NaN or an infinity, and the value always fits the four bytes that
    [pack] checks from above. *)
Theorem microseconds_per_beat_closed_form (tempo : Z) :
  microseconds_per_beat tempo
  = (if tempo =? 0 then Raised ZeroDivisionError
     else Returned (60000000 ÷ tempo)) /\
  -60000000 <= 60000000 ÷ tempo <= 60000000.
Proof.
  split.
  - destruct (Z.eqb_spec tempo 0) as [->|Hne]; [reflexivity|].
    apply microseconds_per_beat_quot. exact Hne.
  - destruct (Z.eq_dec tempo 0) as [->|Hne]; [cbn; lia|].
    destruct (Z.lt_ge_cases 0 tempo) as [Hpos|Hneg].
    + rewrite Z.quot_div_nonneg by lia.
      assert (0 <= 60000000 / tempo) by (apply Z.div_pos; lia).
      assert (60000000 / tempo <= 60000000)
        by (apply Z.div_le_upper_bound; nia).
      lia.
    + replace tempo with (- - tempo) by lia.
      rewrite Z.quot_opp_r, Z.quot_div_nonneg by lia.
      assert (0 <= 60000000 / - tempo) by (apply Z.div_pos; lia).
      assert (60000000 / - tempo <= 60000000)
        by (apply Z.div_le_upper_bound; nia).
      lia.
Qed.

Lemma firstn_exact {A : Type} (l1 l2 : list A) (n : nat) :
  length l1 = n -> firstn n (l1 ++ l2) = l1.
Proof.
  intros <-. rewrite <- (Nat.add_0_r (length l1)), firstn_app_2.
  cbn. apply app_nil_r.
Qed.

Lemma skipn_exact {A : Type} (l1 l2 : list A) (n : nat) :
  length l1 = n -> skipn n (l1 ++ l2) = l2.
Proof.
  intros <-. rewrite skipn_app, skipn_all, Nat.sub_diag. reflexivity.
Qed.

Lemma set_tempo_length (us : Z) : length (set_tempo us) = 7%nat.
Proof. unfold set_tempo. rewrite length_app, be_bytes_length. reflexivity. Qed.

(** The file of a successful call, cut before and after the three bytes
    of the tempo. *)
Lemma create_midi_returned_split (fuel : nat) (filename : String.string)
    (notes : list note) (tempo : Z) (out : bytes) :
  create_midi fuel filename notes tempo = Returned out ->
  exists us events,
    microseconds_per_beat tempo = Returned us /\
    create_midi_notes fuel notes (float_of_int 0) [] = Returned events /\
    Z.of_nat (11 + length events) <= 4294967295 /\
    out = (header_chunk ++ MTrk
           ++ be_bytes 4 (Z.of_nat (11 + length events)) ++ [0; 255; 81; 3])
          ++ be_bytes 3 us ++ (events ++ end_of_track).
Proof.
  intros H. apply create_midi_returned in H.
  destruct H as (us & events & Hus & _ & Hev & Hlen & ->).
  assert (HL : length (set_tempo us ++ events ++ end_of_track)
               = (11 + length events)%nat).
  { rewrite !length_app, set_tempo_length. cbn. lia. }
  rewrite HL in *. exists us, events.
  split; [exact Hus|]. split; [exact Hev|]. split; [exact Hlen|].
  unfold set_tempo. rewrite <- !app_assoc. reflexivity.
Qed.

(** X8.  The tempo touches three bytes of the file only: two successful
    calls on the same notes, whatever their tempos and file names, write
    files of the same length that agree on the first 26 bytes and from
    byte 29 on. *)
Theorem tempo_changes_three_bytes (fuel : nat) (f1 f2 : String.string)
    (notes : list note) (t1 t2 : Z) (o1 o2 : bytes) :
  create_midi fuel f1 notes t1 = Returned o1 ->
  create_midi fuel f2 notes t2 = Returned o2 ->
  length o1 = length o2 /\
  firstn 26 o1 = firstn 26 o2 /\
  skipn 29 o1 = skipn 29 o2.
Proof.
  intros H1 H2.
  apply create_midi_returned_split in H1.
  destruct H1 as (us1 & ev1 & _ & Hev1 & _ & ->).
  apply create_midi_returned_split in H2.
  destruct H2 as (us2 & ev2 & _ & Hev2 & _ & ->).
  rewrite Hev1 in Hev2. apply Returned_inj in Hev2. subst ev2.
  set (L := Z.of_nat (11 + length ev1)).
  assert (Hh : length (header_chunk ++ MTrk ++ be_bytes 4 L ++ [0; 255; 81; 3])
               = 26%nat).
  { rewrite !length_app, be_bytes_length. reflexivity. }
  split; [|split].
  - rewrite !length_app, !be_bytes_length. reflexivity.
  - rewrite !firstn_exact by exact Hh. reflexivity.
  - change 29%nat with (3 + 26)%nat. rewrite <- !skipn_skipn.
    rewrite !(skipn_exact _ _ 26) by exact Hh.
    rewrite !(skipn_exact _ _ 3) by apply be_bytes_length. reflexivity.
Qed.

Lemma tempo_changes_three_bytes_witness :
  create_midi 0 out_mid [] 155
  = Returned (header_chunk ++ MTrk ++ [0; 0; 0; 11]
              ++ [0; 255; 81; 3; 5; 232; 24] ++ end_of_track) /\
  create_midi 0 out_mid [] 120
  = Returned (header_chunk ++ MTrk ++ [0; 0; 0; 11]
              ++ [0; 255; 81; 3; 7; 161; 32] ++ end_of_track) /\
  skipn 29 (header_chunk ++ MTrk ++ [0; 0; 0; 11]
            ++ [0; 255; 81; 3; 5; 232; 24] ++ end_of_track)
  = skipn 29 (header_chunk ++ MTrk ++ [0; 0; 0; 11]
              ++ [0; 255; 81; 3; 7; 161; 32] ++ end_of_track).
Proof.
  assert (H1 : create_midi 0 out_mid [] 155
               = Returned (header_chunk ++ MTrk ++ [0; 0; 0; 11]
                           ++ [0; 255; 81; 3; 5; 232; 24] ++ end_of_track))
    by (vm_compute; reflexivity).
  assert (H2 : create_midi 0 out_mid [] 120
               = Returned (header_chunk ++ MTrk ++ [0; 0; 0; 11]
                           ++ [0; 255; 81; 3; 7; 161; 32] ++ end_of_track))
    by (vm_compute; reflexivity).
  split; [exact H1|]. split; [exact H2|].
  apply (tempo_changes_three_bytes 0 out_mid out_mid [] 155 120 _ _ H1 H2).
Defined.

Lemma bind_Returned_r {A : Type} (m : outcome A) : (a <- m ;; Returned a) = m.
Proof. destruct m; reflexivity. Qed.

Lemma pack_L_in_range (v : Z) :
  0 <= v <= 4294967295 -> pack_L v = Returned (be_bytes 4 v).
Proof.
  intros Hv. unfold pack_L.
  destruct (Z.leb_spec 0 v); destruct (Z.leb_spec v 4294967295);
    cbn [andb]; try reflexivity; lia.
Qed.

(** The loop on a concatenation: the second part starts from the cursor
    the first part leaves. *)
Lemma create_midi_notes_app (fuel : nat) (pre post : list note) :
  forall last_time,
    create_midi_notes fuel (pre ++ post) last_time []
    = (a <- create_midi_notes fuel pre last_time [] ;;
       b <- create_midi_notes fuel post (cursor_after last_time pre) [] ;;
       Returned (a ++ b)).
Proof.
  induction pre as [|n pre IH]; intros last_time.
  - cbn [app create_midi_notes cursor_after bind].
    symmetry. apply bind_Returned_r.
  - cbn [app cursor_after]. rewrite !create_midi_notes_cons, IH.
    destruct (note_events fuel last_time n) as [ev| |]; cbn [bind];
      try reflexivity.
    destruct (create_midi_notes fuel pre (note_end n) []) as [a| |];
      cbn [bind]; try reflexivity.
    destruct (create_midi_notes fuel post (cursor_after (note_end n) pre) [])
      as [b| |]; cbn [bind]; try reflexivity.
    rewrite app_assoc. reflexivity.
Qed.

(** X9.  Notes are encoded one after the other, and later notes do not
    change the bytes of earlier ones: when the call succeeds on a list it
    succeeds on every prefix of it, and the track of the prefix, up to its
    end of track, opens the track of the whole list; the rest is the
    encoding of the remaining notes from the cursor the prefix leaves. *)
Theorem create_midi_prefix (fuel : nat) (filename : String.string)
    (pre post : list note) (tempo : Z) (out : bytes) :
  create_midi fuel filename (pre ++ post) tempo = Returned out ->
  exists us a b out_pre,
    skipn 22 out = set_tempo us ++ (a ++ b) ++ end_of_track /\
    create_midi fuel filename pre tempo = Returned out_pre /\
    skipn 22 out_pre = set_tempo us ++ a ++ end_of_track /\
    create_midi_notes fuel post (cursor_after (float_of_int 0) pre) []
    = Returned b.
Proof.
  intros H. apply create_midi_returned in H.
  destruct H as (us & events & Hus & Hr & Hev & Hlen & ->).
  rewrite create_midi_notes_app in Hev.
  apply bind_returned in Hev. destruct Hev as (a & Ha & Hev).
  apply bind_returned in Hev. destruct Hev as (b & Hb & Hev).
  apply Returned_inj in Hev. subst events.
  exists us, a, b.
  exists (header_chunk ++ MTrk
          ++ be_bytes 4 (Z.of_nat (length (set_tempo us ++ a ++ end_of_track)))
          ++ set_tempo us ++ a ++ end_of_track).
  split; [apply skipn_22_file, be_bytes_length|].
  split; [|split; [apply skipn_22_file, be_bytes_length | exact Hb]].
  rewrite create_midi_eq, Hus. cbn [bind].
  rewrite (pack_L_in_range us) by exact Hr. cbn [bind].
  rewrite Ha. cbn [bind]. cbv zeta.
  rewrite pack_L_in_range; [reflexivity|].
  rewrite !length_app in Hlen. rewrite !length_app. lia.
Qed.

Lemma create_midi_prefix_witness :
  create_midi 2 out_mid
    ([(f_lit_0_0, 41, f_lit_0_75, 100)] ++ [(f_lit_0_75, 46, f_lit_0_5, 95)]) 155
  = Returned (header_chunk ++ MTrk ++ [0; 0; 0; 29]
              ++ [0; 255; 81; 3; 5; 232; 24]
              ++ [0; 144; 41; 100; 104; 130; 128; 41; 0]
              ++ [0; 144; 46; 95; 112; 129; 128; 46; 0]
              ++ [0; 255; 47; 0]) /\
  exists us a b out_pre,
    skipn 22 (header_chunk ++ MTrk ++ [0; 0; 0; 29]
              ++ [0; 255; 81; 3; 5; 232; 24]
              ++ [0; 144; 41; 100; 104; 130; 128; 41; 0]
              ++ [0; 144; 46; 95; 112; 129; 128; 46; 0]
              ++ [0; 255; 47; 0])
    = set_tempo us ++ (a ++ b) ++ end_of_track /\
    create_midi 2 out_mid [(f_lit_0_0, 41, f_lit_0_75, 100)] 155
    = Returned out_pre /\
    skipn 22 out_pre = set_tempo us ++ a ++ end_of_track /\
    create_midi_notes 2 [(f_lit_0_75, 46, f_lit_0_5, 95)]
      (cursor_after (float_of_int 0) [(f_lit_0_0, 41, f_lit_0_75, 100)]) []
    = Returned b.
Proof.
  assert (H : create_midi 2 out_mid
                ([(f_lit_0_0, 41, f_lit_0_75, 100)]
                 ++ [(f_lit_0_75, 46, f_lit_0_5, 95)]) 155
              = Returned (header_chunk ++ MTrk ++ [0; 0; 0; 29]
                          ++ [0; 255; 81; 3; 5; 232; 24]
                          ++ [0; 144; 41; 100; 104; 130; 128; 41; 0]
                          ++ [0; 144; 46; 95; 112; 129; 128; 46; 0]
                          ++ [0; 255; 47; 0]))
    by (vm_compute; reflexivity).
  split; [exact H|].
  exact (create_midi_prefix 2 out_mid _ _ 155 _ H).
Defined.

(** A conversion error at a note the loop reaches is the error of the
    call, for every fuel: both tick counts are converted before
    [write_varlen] is called. *)
Lemma create_midi_conversion_error (fuel : nat) (filename : String.string)
    (pre post : list note) (n : note) (tempo : Z) (a : bytes) (e : exn) :
  0 < tempo ->
  create_midi_notes fuel pre (float_of_int 0) [] = Returned a ->
  (start_ticks (cursor_after (float_of_int 0) pre) n = Raised e \/
   exists d, start_ticks (cursor_after (float_of_int 0) pre) n = Returned d /\
             dur_ticks n = Raised e) ->
  create_midi fuel filename (pre ++ n :: post) tempo = Raised e.
Proof.
  intros Ht Ha Herr.
  rewrite create_midi_eq, microseconds_per_beat_quot by lia. cbn [bind].
  rewrite pack_L_in_range.
  - cbn [bind]. rewrite create_midi_notes_app, Ha. cbn [bind].
    rewrite create_midi_notes_cons.
    replace (note_events fuel (cursor_after (float_of_int 0) pre) n)
      with (@Raised bytes e); [reflexivity|].
    destruct n as [[[start pitch] dur] vel]. unfold note_events.
    destruct Herr as [-> | (d & -> & ->)]; reflexivity.
  - rewrite Z.quot_div_nonneg by lia.
    assert (0 <= 60000000 / tempo) by (apply Z.div_pos; lia).
    assert (60000000 / tempo <= 60000000)
      by (apply Z.div_le_upper_bound; nia).
    lia.
Qed.

(** X10.  A duration that is not a number stops the call with an error,
    for every fuel and whatever the start delta of the note, negative
    included: [ValueError] for a NaN, [OverflowError] for an infinity.  So
    does a start that is a NaN. *)
Theorem create_midi_not_a_number (fuel : nat) (filename : String.string)
    (pre post : list note) (start dur : float) (pitch vel tempo : Z)
    (a : bytes) :
  0 < tempo ->
  create_midi_notes fuel pre (float_of_int 0) [] = Returned a ->
  (start = S754_nan ->
   create_midi fuel filename (pre ++ (start, pitch, dur, vel) :: post) tempo
   = Raised ValueError) /\
  (forall d,
     start_ticks (cursor_after (float_of_int 0) pre) (start, pitch, dur, vel)
     = Returned d ->
     (dur = S754_nan ->
      create_midi fuel filename (pre ++ (start, pitch, dur, vel) :: post) tempo
      = Raised ValueError) /\
     (forall s, dur = S754_infinity s ->
      create_midi fuel filename (pre ++ (start, pitch, dur, vel) :: post) tempo
      = Raised OverflowError)).
Proof.
  intros Ht Ha. split.
  - intros ->. apply (create_midi_conversion_error fuel filename pre post _ tempo a);
      try assumption.
    left. reflexivity.
  - intros d Hd. split.
    + intros ->.
      apply (create_midi_conversion_error fuel filename pre post _ tempo a);
        try assumption.
      right. exists d. split; [exact Hd | reflexivity].
    + intros s ->.
      apply (create_midi_conversion_error fuel filename pre post _ tempo a);
        try assumption.
      right. exists d. split; [exact Hd | reflexivity].
Qed.

Lemma create_midi_not_a_number_witness :
  0 < 155 /\
  create_midi_notes 0 [] (float_of_int 0) [] = Returned [] /\
  start_ticks (cursor_after (float_of_int 0) [])
    (float_lit (-1) 0, 60, S754_nan, 100) = Returned (-480) /\
  create_midi 0 out_mid ([] ++ (float_lit (-1) 0, 60, S754_nan, 100) :: []) 155
  = Raised ValueError.
Proof.
  assert (H1 : 0 < 155) by reflexivity.
  assert (H2 : create_midi_notes 0 [] (float_of_int 0) [] = Returned [])
    by reflexivity.
  assert (H3 : start_ticks (cursor_after (float_of_int 0) [])
                 (float_lit (-1) 0, 60, S754_nan, 100) = Returned (-480))
    by reflexivity.
  split; [exact H1|]. split; [exact H2|]. split; [exact H3|].
  exact (proj1 (proj2 (create_midi_not_a_number 0 out_mid [] []
                         (float_lit (-1) 0) S754_nan 60 100 155 [] H1 H2)
                  (-480) H3) eq_refl).
Defined.

(** The difference of a number with itself is zero, and so are its
    ticks. *)
Lemma fsub_same (x : float) :
  is_finite x = true -> exists s, fsub x x = S754_zero s.
Proof.
  destruct x as [s|s| |s m e]; try discriminate; intros _.
  - destruct s; eexists; reflexivity.
  - exists false. unfold fsub. cbn [SFsub].
    rewrite Z.sub_diag. reflexivity.
Qed.

(** X11.  A note that starts exactly where the cursor stands, as every
    note does that begins where the one before it ended, has a start
    delta of 0 ticks, and its Note-On is written behind the delta time
    [00]. *)
Theorem note_at_cursor (fuel : nat) (last_time dur : float) (pitch vel : Z)
    (ev : bytes) :
  is_finite last_time = true ->
  start_ticks last_time (last_time, pitch, dur, vel) = Returned 0 /\
  (note_events fuel last_time (last_time, pitch, dur, vel) = Returned ev ->
   firstn 4 ev = [0; 144; pitch; vel]).
Proof.
  intros Hf.
  assert (Hs : start_ticks last_time (last_time, pitch, dur, vel) = Returned 0).
  { cbn [start_ticks]. destruct (fsub_same last_time Hf) as [s ->].
    reflexivity. }
  split; [exact Hs|].
  intros H. apply note_events_returned in H.
  destruct H as (ds & dd & Hds & _ & _ & _ & _ & _ & _ & _ & ->).
  rewrite Hs in Hds. apply Returned_inj in Hds. subst ds. reflexivity.
Qed.

Lemma note_at_cursor_witness :
  is_finite f_lit_0_75 = true /\
  start_ticks f_lit_0_75 (f_lit_0_75, 46, f_lit_0_5, 95) = Returned 0.
Proof.
  assert (H : is_finite f_lit_0_75 = true) by reflexivity.
  split; [exact H|].
  apply (note_at_cursor 2 f_lit_0_75 f_lit_0_5 46 95 [] H).
Defined.

(** X12.  A start less than one tick away from the cursor, before it or
    after it, is a start delta of 0: [int] truncates towards zero, so a
    note that begins a fraction of a tick early is accepted like a note
    on the cursor. *)
Theorem start_within_a_tick (last_time start dur : float) (pitch vel : Z)
    (s : bool) (m : positive) (e : Z) :
  fmul (fsub start last_time) (float_of_int PPQ) = S754_finite s m e ->
  Z.pos m < 2 ^ (- e) ->
  start_ticks last_time (start, pitch, dur, vel) = Returned 0.
Proof.
  intros Hx Hm. cbn [start_ticks]. rewrite Hx. cbn [int_of_float]. f_equal.
  assert (He : e < 0).
  { destruct (Z.ltb_spec e 0) as [H|H]; [exact H|].
    assert (2 ^ (- e) <= 1); [|lia].
    destruct (Z.eq_dec e 0) as [->|]; [cbn; lia|].
    rewrite Z.pow_neg_r by lia. lia. }
  replace e with (- - e) by lia. rewrite Z.shiftl_opp_r.
  rewrite Z.shiftr_div_pow2 by lia.
  rewrite Z.div_small by lia. destruct s; reflexivity.
Qed.

Lemma start_within_a_tick_witness :
  fmul (fsub (float_lit 2047 (-10)) (float_lit 2 0)) (float_of_int PPQ)
  = S754_finite true 8444249301319680 (-54) /\
  Z.pos 8444249301319680 < 2 ^ (- -54) /\
  start_ticks (float_lit 2 0) (float_lit 2047 (-10), 60, f_lit_1_0, 100)
  = Returned 0.
Proof.
  assert (H1 : fmul (fsub (float_lit 2047 (-10)) (float_lit 2 0))
                 (float_of_int PPQ)
               = S754_finite true 8444249301319680 (-54)) by reflexivity.
  assert (H2 : Z.pos 8444249301319680 < 2 ^ (- -54)) by reflexivity.
  split; [exact H1|]. split; [exact H2|].
  exact (start_within_a_tick (float_lit 2 0) (float_lit 2047 (-10)) f_lit_1_0
           60 100 true 8444249301319680 (-54) H1 H2).
Defined.

(** ** The size and the content of the file *)

Lemma vlq_encode_length (v : Z) : length (vlq_encode v) = S (vlq_size v).
Proof.
  unfold vlq_encode. rewrite length_app, vlq_cont_length. cbn. lia.
Qed.

(** What a run of the loop that returns has met on its way. *)
Lemma encoded_notes_facts (fuel : nat) (last_time : float)
    (notes : list note) (evs : list bytes) :
  encoded_notes fuel last_time notes evs ->
  Forall valid_ticks (start_tick_list last_time notes) /\
  Forall (fun n => valid_ticks (dur_ticks n)) notes /\
  (fuel_needed last_time notes <= fuel)%nat /\
  length (concat evs) = events_size last_time notes /\
  (8 * length notes <= events_size last_time notes)%nat /\
  Forall (fun b => 0 <= b < 256) (concat evs).
Proof.
  induction 1 as [|last_time n notes ev evs Hev _ IH];
    cbn [start_tick_list fuel_needed events_size concat length].
  - repeat split; try constructor; lia.
  - destruct IH as (I1 & I2 & I3 & I4 & I5 & I6).
    destruct n as [[[start pitch] dur] vel].
    apply note_events_returned in Hev.
    destruct Hev as (ds & dd & Hds & Hdd & Hs0 & Hd0 & Hp & Hv & Hon & Hoff & ->).
    apply write_varlen_returned in Hon. destruct Hon as (_ & Hfs & _).
    apply write_varlen_returned in Hoff. destruct Hoff as (_ & Hfd & _).
    rewrite Hds, Hdd. cbn [ticks_fuel ticks_bytes].
    split; [constructor; [exists ds; auto | exact I1]|].
    split; [constructor; [exists dd; rewrite Hdd; auto | exact I2]|].
    split; [lia|].
    split.
    { rewrite !length_app, !length_rev, !vlq_encode_length, I4. cbn. lia. }
    split; [lia|].
    repeat (apply Forall_app; split); try exact I6;
      try (apply Forall_rev, vlq_encode_bytes);
      repeat constructor; lia.
Qed.

(** X13.  The size of the file: 33 bytes of header, track header, tempo
    and end of track, and for each note its two delta times and six bytes;
    never less than eight bytes per note.  The file ends with the end of
    track [00 FF 2F 00]. *)
Theorem create_midi_size (fuel : nat) (filename : String.string)
    (notes : list note) (tempo : Z) (out : bytes) :
  create_midi fuel filename notes tempo = Returned out ->
  length out = (33 + events_size (float_of_int 0) notes)%nat /\
  (33 + 8 * length notes <= length out)%nat /\
  skipn (length out - 4) out = end_of_track.
Proof.
  intros H. apply create_midi_returned_split in H.
  destruct H as (us & events & _ & Hev & _ & ->).
  apply create_midi_notes_returned in Hev. destruct Hev as (evs & Henc & ->).
  apply encoded_notes_facts in Henc.
  destruct Henc as (_ & _ & _ & Hsize & Hmin & _).
  set (L := Z.of_nat (11 + length (concat evs))).
  assert (Hlen : length ((header_chunk ++ MTrk ++ be_bytes 4 L ++ [0; 255; 81; 3])
                         ++ be_bytes 3 us ++ concat evs ++ end_of_track)
                 = (33 + events_size (float_of_int 0) notes)%nat).
  { rewrite !length_app, !be_bytes_length, Hsize. cbn. lia. }
  split; [exact Hlen|]. split; [lia|].
  rewrite Hlen. rewrite !app_assoc. apply skipn_exact.
  rewrite !length_app, !be_bytes_length, Hsize. cbn. lia.
Qed.

Lemma create_midi_size_witness :
  create_midi 2 out_mid [(f_lit_0_0, 41, f_lit_0_75, 100)] 155
  = Returned (header_chunk ++ MTrk ++ [0; 0; 0; 20]
              ++ [0; 255; 81; 3; 5; 232; 24; 0; 144; 41; 100;
                  104; 130; 128; 41; 0; 0; 255; 47; 0]) /\
  length (header_chunk ++ MTrk ++ [0; 0; 0; 20]
          ++ [0; 255; 81; 3; 5; 232; 24; 0; 144; 41; 100;
              104; 130; 128; 41; 0; 0; 255; 47; 0])
  = (33 + events_size (float_of_int 0) [(f_lit_0_0, 41%Z, f_lit_0_75, 100%Z)])%nat.
Proof.
  assert (H : create_midi 2 out_mid [(f_lit_0_0, 41, f_lit_0_75, 100)] 155
              = Returned (header_chunk ++ MTrk ++ [0; 0; 0; 20]
                          ++ [0; 255; 81; 3; 5; 232; 24; 0; 144; 41; 100;
                              104; 130; 128; 41; 0; 0; 255; 47; 0]))
    by (vm_compute; reflexivity).
  split; [exact H|].
  apply (create_midi_size 2 out_mid _ 155 _ H).
Defined.

(** X14.  Every element of the file of a successful call is a byte. *)
Theorem create_midi_bytes (fuel : nat) (filename : String.string)
    (notes : list note) (tempo : Z) (out : bytes) :
  create_midi fuel filename notes tempo = Returned out ->
  Forall (fun b => 0 <= b < 256) out.
Proof.
  intros H. apply create_midi_returned_split in H.
  destruct H as (us & events & _ & Hev & _ & ->).
  apply create_midi_notes_returned in Hev. destruct Hev as (evs & Henc & ->).
  apply encoded_notes_facts in Henc.
  destruct Henc as (_ & _ & _ & _ & _ & Hb).
  unfold header_chunk, MThd, MTrk, end_of_track.
  repeat first [ exact Hb | apply be_bytes_range | apply Forall_nil
               | apply Forall_cons; [lia|] | apply Forall_app; split ].
Qed.

Lemma create_midi_bytes_witness :
  create_midi 0 out_mid [] 155
  = Returned (header_chunk ++ MTrk ++ [0; 0; 0; 11]
              ++ [0; 255; 81; 3; 5; 232; 24] ++ end_of_track) /\
  Forall (fun b => 0 <= b < 256)
    (header_chunk ++ MTrk ++ [0; 0; 0; 11]
     ++ [0; 255; 81; 3; 5; 232; 24] ++ end_of_track).
Proof.
  assert (H : create_midi 0 out_mid [] 155
              = Returned (header_chunk ++ MTrk ++ [0; 0; 0; 11]
                          ++ [0; 255; 81; 3; 5; 232; 24] ++ end_of_track))
    by (vm_compute; reflexivity).
  split; [exact H|].
  exact (create_midi_bytes 0 out_mid [] 155 _ H).
Defined.

(** ** When the call succeeds *)

Lemma track_data_length (us : Z) (events : bytes) :
  length (set_tempo us ++ events ++ end_of_track) = (11 + length events)%nat.
Proof. rewrite !length_app, set_tempo_length. cbn. lia. Qed.

(** The loop returns when every note is usable and the fuel suffices. *)
Lemma create_midi_notes_succeeds (fuel : nat) (notes : list note) :
  forall last_time,
    Forall valid_ticks (start_tick_list last_time notes) ->
    Forall (fun n => valid_ticks (dur_ticks n)) notes ->
    Forall (fun n => ~ non_byte_fields n) notes ->
    (fuel_needed last_time notes <= fuel)%nat ->
    exists events, create_midi_notes fuel notes last_time [] = Returned events.
Proof.
  induction notes as [|n notes IH]; intros last_time Hs Hd Hb Hf.
  - exists []. reflexivity.
  - cbn [start_tick_list fuel_needed] in Hs, Hf.
    inversion Hs as [|? ? (ds & Hds & Hds0) Hs']; subst.
    inversion Hd as [|? ? (dd & Hdd & Hdd0) Hd']; subst.
    inversion Hb as [|? ? Hb0 Hb']; subst.
    rewrite Hds, Hdd in Hf. cbn [ticks_fuel] in Hf.
    destruct (IH (note_end n) Hs' Hd' Hb') as (rest & Hrest); [lia|].
    rewrite create_midi_notes_cons, Hrest.
    destruct n as [[[start pitch] dur] vel].
    assert (Hok : 0 <= pitch < 256 /\ 0 <= vel < 256)
      by (cbn in Hb0; lia).
    unfold note_events. rewrite Hds, Hdd. cbn [bind].
    rewrite write_varlen_spec by lia. cbn [bind].
    rewrite (forallb_is_byte [pitch; vel]) by (repeat constructor; lia).
    cbn [bind]. rewrite write_varlen_spec by lia. cbn [bind].
    rewrite (forallb_is_byte [pitch; 0]) by (repeat constructor; lia).
    cbn [bind]. eexists. reflexivity.
Qed.

(** X15.  The call succeeds exactly when: the tempo is positive or below
    -60000000; every start delta and every duration is a finite number
    whose tick count is not negative; every pitch and velocity lies in
    [0, 255]; and the track data, 11 bytes and the events, fits the 32-bit
    length field.  (In the model the loops of [write_varlen] moreover need
    their fuel.)  Nothing else makes the call fail. *)
Theorem create_midi_succeeds_iff (fuel : nat) (filename : String.string)
    (notes : list note) (tempo : Z) :
  is_returned (create_midi fuel filename notes tempo) = true <->
  (0 < tempo \/ tempo < -60000000) /\
  Forall valid_ticks (start_tick_list (float_of_int 0) notes) /\
  Forall (fun n => valid_ticks (dur_ticks n)) notes /\
  Forall (fun n => ~ non_byte_fields n) notes /\
  (fuel_needed (float_of_int 0) notes <= fuel)%nat /\
  Z.of_nat (11 + events_size (float_of_int 0) notes) <= 4294967295.
Proof.
  split.
  - intros H.
    destruct (create_midi fuel filename notes tempo) as [out| |] eqn:E;
      try discriminate H.
    apply create_midi_returned in E.
    destruct E as (us & events & Hus & Hr & Hev & Hlen & _).
    rewrite track_data_length in Hlen.
    apply create_midi_notes_returned in Hev. destruct Hev as (evs & Henc & ->).
    pose proof (encoded_notes_fields _ _ _ _ Henc) as [Hb _].
    apply encoded_notes_facts in Henc.
    destruct Henc as (Hs & Hd & Hf & Hsize & _ & _).
    rewrite Hsize in Hlen.
    assert (Hne : tempo <> 0).
    { intros ->. discriminate Hus. }
    rewrite microseconds_per_beat_quot in Hus by exact Hne.
    apply Returned_inj in Hus. subst us.
    apply quot_60000000_nonneg in Hr; [|exact Hne].
    repeat split; assumption.
  - intros (Ht & Hs & Hd & Hb & Hf & Hlen).
    assert (Hne : tempo <> 0) by lia.
    destruct (create_midi_notes_succeeds fuel notes _ Hs Hd Hb Hf)
      as (events & Hev).
    pose proof Hev as Hev'.
    apply create_midi_notes_returned in Hev'.
    destruct Hev' as (evs & Henc & Heq).
    apply encoded_notes_facts in Henc.
    destruct Henc as (_ & _ & _ & Hsize & _ & _).
    rewrite <- Heq in Hsize. rewrite <- Hsize in Hlen.
    rewrite create_midi_eq, microseconds_per_beat_quot by exact Hne.
    cbn [bind].
    rewrite pack_L_in_range by (apply quot_60000000_nonneg; assumption).
    cbn [bind]. rewrite Hev. cbn [bind].
    rewrite track_data_length.
    rewrite pack_L_in_range by lia.
    reflexivity.
Qed.

(** ** The script *)

(** With enough fuel for every tick count, the fuel no longer matters. *)
Lemma create_midi_enough_fuel (f1 f2 : nat) (filename : String.string)
    (notes : list note) (tempo : Z) :
  Forall nonneg_ticks (start_tick_list (float_of_int 0) notes) ->
  Forall (fun n => nonneg_ticks (dur_ticks n)) notes ->
  (fuel_needed (float_of_int 0) notes <= f1)%nat ->
  (fuel_needed (float_of_int 0) notes <= f2)%nat ->
  create_midi f1 filename notes tempo = create_midi f2 filename notes tempo.
Proof.
  intros Hs Hd Hf1 Hf2. rewrite !create_midi_eq.
  destruct (create_midi_notes_stable f1 f2 notes (float_of_int 0) Hs Hd Hf1 Hf2)
    as [-> _].
  reflexivity.
Qed.

(** X16.  The run of the script, the call at module level on the bass
    line: it returns (each loop of [write_varlen] runs at most twice) a
    file of 179 bytes, tempo 387096 microseconds per beat.  The seventeen
    notes follow each other without a gap, so every Note-On has delta 0.
    The ten notes longer than a quarter of a beat have their two-byte
    duration written low group first: the first Note-Off, 360 ticks after
    its Note-On, carries [68 82], which a reader of the MIDI format takes
    for the delta 104 followed by the status byte [82]. *)
Theorem script_run (fuel : nat) :
  (2 <= fuel)%nat ->
  exists out,
    Script.main fuel = Returned out /\
    out = header_chunk ++ MTrk ++ [0; 0; 0; 157] ++ set_tempo 387096
          ++ concat [ [0; 144; 41; 100; 104; 130; 128; 41; 0]
                    ; [0; 144; 46; 95; 120; 128; 46; 0]
                    ; [0; 144; 43; 100; 112; 129; 128; 43; 0]
                    ; [0; 144; 41; 100; 120; 128; 41; 0]
                    ; [0; 144; 48; 100; 120; 128; 48; 0]
                    ; [0; 144; 45; 100; 112; 129; 128; 45; 0]
                    ; [0; 144; 41; 100; 112; 129; 128; 41; 0]
                    ; [0; 144; 43; 100; 112; 129; 128; 43; 0]
                    ; [0; 144; 46; 100; 120; 128; 46; 0]
                    ; [0; 144; 41; 100; 120; 128; 41; 0]
                    ; [0; 144; 48; 100; 112; 129; 128; 48; 0]
                    ; [0; 144; 45; 100; 120; 128; 45; 0]
                    ; [0; 144; 43; 100; 120; 128; 43; 0]
                    ; [0; 144; 41; 100; 96; 131; 128; 41; 0]
                    ; [0; 144; 46; 100; 112; 129; 128; 46; 0]
                    ; [0; 144; 48; 100; 112; 129; 128; 48; 0]
                    ; [0; 144; 41; 100; 96; 131; 128; 41; 0] ]
          ++ end_of_track /\
    length out = 179%nat /\
    start_tick_list (float_of_int 0) Script.notes = repeat (Returned 0) 17 /\
    map dur_ticks Script.notes
    = map (@Returned Z) [360; 120; 240; 120; 120; 240; 240; 240; 120;
                         120; 240; 120; 120; 480; 240; 240; 480] /\
    vlq_decode (skipn 33 out) = Some (104, 130 :: skipn 35 out).
Proof.
  intros Hfuel.
  assert (Hs : start_tick_list (float_of_int 0) Script.notes
               = repeat (Returned 0) 17) by (vm_compute; reflexivity).
  assert (Hn : fuel_needed (float_of_int 0) Script.notes = 2%nat)
    by (vm_compute; reflexivity).
  assert (Hrun : Script.main fuel = Script.main 2).
  { unfold Script.main. apply create_midi_enough_fuel.
    - rewrite Hs. cbn [repeat].
      repeat (apply Forall_cons;
              [intros d Hd; apply Returned_inj in Hd; lia|]).
      apply Forall_nil.
    - unfold Script.notes.
      repeat (apply Forall_cons;
              [intros d Hd; vm_compute in Hd; apply Returned_inj in Hd; lia|]).
      apply Forall_nil.
    - rewrite Hn. exact Hfuel.
    - rewrite Hn. apply Nat.le_refl. }
  eexists. split; [|split; [reflexivity|]].
  - rewrite Hrun. vm_compute. reflexivity.
  - split; [reflexivity|]. split; [exact Hs|].
    split; vm_compute; reflexivity.
Qed.

Lemma script_run_witness :
  exists out, Script.main 2 = Returned out /\ length out = 179%nat.
Proof.
  destruct (script_run 2 (Nat.le_refl 2)) as (out & Hrun & _ & Hlen & _).
  exists out. split; [exact Hrun | exact Hlen].
Defined.
